(** * WhyCry: a shallow embedding of [src/py3/whycry.py]

    Python strings are lists of Unicode code points ([list Z]); Python
    ints are [Z]; the values returned by [random.random()] are rationals
    in [[0,1)] ([Q]).  A method of the class [WhyCry] runs in a small
    state-and-exception monad over the instance's mutable fields
    ([self.text], [self.signature]) and the stream of values the [random]
    module returns next.  As in Python, an exception leaves behind the
    mutations made before it was raised. *)

From Stdlib Require Import String Ascii ZArith QArith Qround List Lia Bool.
Import ListNotations.

Open Scope Z_scope.

(** ** Python helpers *)

(** Code points of an ASCII literal. *)
Fixpoint str (s : string) : list Z :=
  match s with
  | EmptyString => []
  | String a s' => Z.of_nat (nat_of_ascii a) :: str s'
  end.

(** [l.index(x)] / [s.index(c)]: the first position of [x]; [None] is the
    [ValueError] Python raises when [x] is absent. *)
Fixpoint py_index (l : list Z) (x : Z) : option Z :=
  match l with
  | [] => None
  | y :: l' => if Z.eqb y x then Some 0 else option_map Z.succ (py_index l' x)
  end.

(** [l[i]] for an int [i]: negative indices count from the end; [None] is
    the [IndexError]. *)
Definition py_getitem (l : list Z) (i : Z) : option Z :=
  let n := Z.of_nat (length l) in
  if (0 <=? i) && (i <? n) then Some (nth (Z.to_nat i) l 0)
  else if (- n <=? i) && (i <? 0) then Some (nth (Z.to_nat (n + i)) l 0)
  else None.

(** [s * r] for a list [s] and an int [r] ([[]] when [r <= 0]). *)
Definition py_list_mul (s : list Z) (r : Z) : list Z :=
  concat (repeat s (Z.to_nat r)).

(** [map(f, a, b)]: stops at the end of the shorter argument. *)
Fixpoint py_map2 (f : Z -> Z -> Z) (a b : list Z) : list Z :=
  match a, b with
  | x :: a', y :: b' => f x y :: py_map2 f a' b'
  | _, _ => []
  end.

(** [int(q)] for a float [q]: truncation towards zero. *)
Definition py_int (q : Q) : Z :=
  if Qle_bool 0 q then Qfloor q else - Qfloor (- q).

(** ** The alphabets ([DIZ]) *)

Definition NUM : list Z := str "0123456789".
Definition HEX : list Z := NUM ++ str "abcdef".
Definition ALPHANUM : list Z :=
  HEX ++ str "ghijklmnopqrstuvwxyzABCDEFGHIJKLMNOPQRSTUVWXYZ".
(** The punctuation literal of [ASCII_NOSPACE]: its escaped double quote
    is code point 34, and its backslash-bracket is not an escape in Python,
    so it stands for a backslash followed by a closing bracket. *)
Definition ASCII_NOSPACE : list Z :=
  ALPHANUM ++ str "!" ++ [34] ++ str "#$%&'()*+,-./:;<=>?@[\]^_`{|}~".
Definition SPACE : list Z := [32].
Definition ASCII : list Z := SPACE ++ ASCII_NOSPACE.
(** The code points of the second literal of [ASCIIEXT_NOSPACE]. *)
Definition EXT_CHARS : list Z :=
  [127; 8364; 129; 8218; 402; 8222; 8230; 8224; 8225; 710; 8240; 352; 8249;
   338; 141; 381; 143; 144; 8216; 8217; 8220; 8221; 8226; 8211; 8212; 732;
   8482; 353; 8250; 339; 157; 382; 376; 161; 162; 163; 164; 165; 166; 167;
   168; 169; 170; 171; 172; 174; 175; 176; 177; 178; 179; 180; 181; 182; 183;
   184; 185; 186; 187; 188; 189; 190; 191; 192; 193; 194; 195; 196; 197; 198;
   199; 200; 201; 202; 203; 204; 205; 206; 207; 208; 209; 210; 211; 212; 213;
   214; 215; 216; 217; 218; 219; 220; 221; 222; 223; 224; 225; 226; 227; 228;
   229; 230; 231; 232; 233; 234; 235; 236; 237; 238; 239; 240; 241; 242; 243;
   244; 245; 246; 247; 248; 249; 250; 251; 252; 253; 254; 255].
Definition ASCIIEXT_NOSPACE : list Z := ASCII_NOSPACE ++ EXT_CHARS.
Definition ASCIIEXT : list Z := SPACE ++ ASCIIEXT_NOSPACE.
Definition MAIL : list Z := str "abcdefghijklmnopqrstuvwxyz0123456789@.-_+".

(** [WhyCry.DIZ[name]]; [None] is the [KeyError]. *)
Definition DIZ (name : string) : option (list Z) :=
  if String.eqb name "num" then Some NUM
  else if String.eqb name "hex" then Some HEX
  else if String.eqb name "alphanum" then Some ALPHANUM
  else if String.eqb name "ascii_nospace" then Some ASCII_NOSPACE
  else if String.eqb name "ascii" then Some ASCII
  else if String.eqb name "asciiext_nospace" then Some ASCIIEXT_NOSPACE
  else if String.eqb name "asciiext" then Some ASCIIEXT
  else if String.eqb name "mail" then Some MAIL
  else None.

Definition DIZ_names : list string :=
  ["num"; "hex"; "alphanum"; "ascii_nospace"; "ascii"; "asciiext_nospace";
   "asciiext"; "mail"]%string.

(** ** Exceptions, instance, state *)

(** The exceptions the class can raise.  [OutOfDraws] is not a Python
    exception: it marks a run whose supplied [random()] values ran out
    before it finished (the run does not end on that prefix of draws). *)
Inductive exc :=
| KeyError | ValueError | IndexError | ZeroDivisionError | AssertionError
| OutOfDraws.

(** The fields fixed by [__init__]. *)
Record cipher := mk_cipher {
  dictionary : list Z;
  secretkey : list Z
}.

(** The mutable fields [self.text] and [self.signature], and the values
    [random.random()] returns next. *)
Record st := mk_st {
  text : list Z;
  signature : option (list Z);
  draws : list Q
}.

Definition M (A : Type) : Type := st -> (exc + A) * st.

Definition ret {A} (a : A) : M A := fun s => (inr a, s).
Definition bind {A B} (m : M A) (k : A -> M B) : M B :=
  fun s => match m s with
           | (inl e, s') => (inl e, s')
           | (inr a, s') => k a s'
           end.
Definition raise {A} (e : exc) : M A := fun s => (inl e, s).
(** A pure computation that may raise [e]. *)
Definition lift {A} (e : exc) (o : option A) : M A :=
  match o with Some a => ret a | None => raise e end.

Notation "x <- m ;; k" := (bind m (fun x => k))
  (at level 61, m at next level, right associativity).
Notation "m ;;; k" := (bind m (fun _ => k))
  (at level 61, right associativity).

Definition get_text : M (list Z) := fun s => (inr (text s), s).
Definition set_text (t : list Z) : M unit :=
  fun s => (inr tt, mk_st t (signature s) (draws s)).
Definition set_signature (g : list Z) : M unit :=
  fun s => (inr tt, mk_st (text s) (Some g) (draws s)).

(** [random.random()]. *)
Definition random : M Q :=
  fun s => match draws s with
           | [] => (inl OutOfDraws, s)
           | q :: rs => (inr q, mk_st (text s) (signature s) rs)
           end.

(** ** Pure parts of the methods *)

(** [[f(char) for char in string]] with [f = dictionary.index]. *)
Fixpoint build_indices (d : list Z) (s : list Z) : option (list Z) :=
  match s with
  | [] => Some []
  | ch :: s' =>
      match py_index d ch with
      | Some i => option_map (cons i) (build_indices d s')
      | None => None
      end
  end.

(** The body of [_translate]: [None] is the [ZeroDivisionError] of
    [len(t) // len(s)]. *)
Definition translate_list (mode : bool) (d : Z) (s t : list Z) : option (list Z) :=
  let ls := Z.of_nat (length s) in
  if ls =? 0 then None
  else
    let r := Z.of_nat (length t) / ls + 1 in
    if mode then
      Some (map (fun x => if x <? d then x else x - d) (py_map2 Z.add t (py_list_mul s r)))
    else
      Some (map (fun x => if x >? -1 then x else x + d) (py_map2 Z.sub t (py_list_mul s r))).

(** [for x in range(len(t) - 1): if t[x] == t[x + 1]: ... break]: the first
    such [x]; [None] runs the [else] clause. *)
Fixpoint find_pair (t : list Z) : option nat :=
  match t with
  | a :: ((b :: _) as t') => if Z.eqb a b then Some O else option_map S (find_pair t')
  | _ => None
  end.

(** One pass of the [for m in range(2)] loop of [_wide(0)]: [t = t[x + 1:]]
    then [t.reverse()]; [None] is the [else] clause. *)
Definition unwide_pass (t : list Z) : option (list Z) :=
  match find_pair t with
  | Some x => Some (rev (skipn (x + 1) t))
  | None => None
  end.

Fixpoint unwide_loop (m : nat) (t : list Z) : list Z :=
  match m with
  | O => t
  | S m' => match unwide_pass t with
            | Some t' => unwide_loop m' t'
            | None => []
            end
  end.

(** The value [_wide(0)] stores in [self.text]. *)
Definition unwide (t : list Z) : list Z := unwide_loop 2 t.

(** [[f[x] for x in self.text]]: [None] is the [IndexError]. *)
Fixpoint render (f : list Z) (t : list Z) : option (list Z) :=
  match t with
  | [] => Some []
  | x :: t' =>
      match py_getitem f x with
      | Some ch => option_map (cons ch) (render f t')
      | None => None
      end
  end.

(** [__init__(dictionary, secretkey)]. *)
Definition init (name : string) (key : list Z) (rs : list Q) : exc + (cipher * st) :=
  match DIZ name with
  | None => inl KeyError
  | Some d =>
      match build_indices d key with
      | None => inl ValueError
      | Some k => inr (mk_cipher d k, mk_st [] None rs)
      end
  end.

(** [WhyCry.token(dictionary, length)]: [d[randbelow(n)] for x in
    range(length)]; [rb] are the values [secrets.randbelow(n)] returns
    next, [OutOfDraws] when they run out. *)
Fixpoint token_chars (d : list Z) (k : nat) (rb : list Z) : exc + list Z :=
  match k with
  | O => inr []
  | S k' =>
      match rb with
      | [] => inl OutOfDraws
      | r :: rb' =>
          match py_getitem d r with
          | None => inl IndexError
          | Some ch =>
              match token_chars d k' rb' with
              | inl e => inl e
              | inr cs => inr (ch :: cs)
              end
          end
      end
  end.

(** [range(length)] is empty for [length <= 0]. *)
Definition token (dictionary : string) (length : Z) (rb : list Z) : exc + list Z :=
  match DIZ dictionary with
  | None => inl KeyError
  | Some d => token_chars d (Z.to_nat length) rb
  end.

(** ** The methods *)

Section WhyCry.

(** [sha512(s.encode('utf-8')).hexdigest()]. *)
Variable sha512_hexdigest : list Z -> list Z.
Variable self : cipher.

Definition _build_input (s : list Z) : M (list Z) :=
  lift ValueError (build_indices (dictionary self) s).

Definition _translate (mode : bool) : M unit :=
  t <- get_text ;;
  t' <- lift ZeroDivisionError
          (translate_list mode (Z.of_nat (length (dictionary self))) (secretkey self) t) ;;
  set_text t'.

(** [c1 = c2 = t[-1]; while c1 == c2: c1 = int(r() * max)]; each turn
    takes one draw, so [fuel] is the number of draws left. *)
Fixpoint redraw (fuel : nat) (c2 max : Z) : M Z :=
  match fuel with
  | O => raise OutOfDraws
  | S fuel' =>
      q <- random ;;
      let c1 := py_int (q * inject_Z max) in
      if Z.eqb c1 c2 then redraw fuel' c2 max else ret c1
  end.

Definition draw_disturbance (c2 max : Z) : M Z :=
  fun s => redraw (length (draws s)) c2 max s.

(** [for _ in range(s): ...; t.append(c1)]. *)
Fixpoint append_disturbance (n : nat) (max : Z) : M unit :=
  match n with
  | O => ret tt
  | S n' =>
      t <- get_text ;;
      c2 <- lift IndexError (py_getitem t (-1)) ;;
      c1 <- draw_disturbance c2 max ;;
      set_text (t ++ [c1]) ;;;
      append_disturbance n' max
  end.

(** [for s in (cside, cadd - cside): ...; t.reverse()]. *)
Fixpoint fill_parts (parts : list Z) (max : Z) : M unit :=
  match parts with
  | [] => ret tt
  | s :: ps =>
      append_disturbance (Z.to_nat s) max ;;;
      t <- get_text ;;
      set_text (rev t) ;;;
      fill_parts ps max
  end.

Definition _wide (mode : bool) (lenght : Z) : M unit :=
  if mode then
    t <- get_text ;;
    t0 <- lift IndexError (py_getitem t 0) ;;
    set_text (t0 :: t) ;;;
    t <- get_text ;;
    tl <- lift IndexError (py_getitem t (-1)) ;;
    set_text (t ++ [tl]) ;;;
    t <- get_text ;;
    let cadd := lenght - Z.of_nat (length t) in
    q <- random ;;
    let cside := py_int (q * inject_Z cadd) in
    let max := Z.of_nat (length (dictionary self)) - 1 in
    fill_parts [cside; cadd - cside] max
  else
    t <- get_text ;;
    set_text (unwide t).

Definition _output : M (list Z) :=
  t <- get_text ;;
  lift IndexError (render (dictionary self) t).

Definition _sign (s : list Z) : list Z := sha512_hexdigest s.

Definition encode (text : list Z) (mode create_signature : bool) : M (list Z) :=
  tx <- _build_input text ;;
  set_text tx ;;;
  _translate mode ;;;
  (if create_signature then set_signature (_sign text) else ret tt) ;;;
  _output.

Definition decode (text : list Z) : M (list Z) :=
  encode text false false.

Definition wencode (text : list Z) (lenght : Z) (create_signature : bool) : M (list Z) :=
  if lenght >? Z.of_nat (length text) + 2 then
    tx <- _build_input text ;;
    set_text tx ;;;
    _wide true lenght ;;;
    _translate true ;;;
    (if create_signature then set_signature (_sign text) else ret tt) ;;;
    _output
  else raise AssertionError.

Definition wdecode (text : list Z) : M (list Z) :=
  tx <- _build_input text ;;
  set_text tx ;;;
  _translate false ;;;
  _wide false 0 ;;;
  _output.

Definition verify (sig : list Z) : M bool :=
  o <- _output ;;
  ret (if list_eq_dec Z.eq_dec sig (_sign o) then true else false).

End WhyCry.

(** * Properties *)

(** ** List lemmas for [_translate] *)

Lemma py_map2_length f a b :
  length (py_map2 f a b) = Nat.min (length a) (length b).
Proof.
  revert b; induction a as [|x a IH]; intros [|y b]; simpl; auto.
Qed.

Lemma py_map2_nth f a b i :
  (i < length a)%nat -> (i < length b)%nat ->
  nth i (py_map2 f a b) 0 = f (nth i a 0) (nth i b 0).
Proof.
  revert b i; induction a as [|x a IH]; intros [|y b] i Ha Hb; simpl in *; try lia.
  destruct i as [|i]; [reflexivity|]. apply IH; lia.
Qed.

Lemma concat_repeat_length (s : list Z) r :
  length (concat (repeat s r)) = (length s * r)%nat.
Proof.
  induction r as [|r IH]; simpl; [lia|].
  rewrite length_app, IH. lia.
Qed.

Lemma concat_repeat_nth (s : list Z) r i :
  (i < length s * r)%nat ->
  nth i (concat (repeat s r)) 0 = nth (i mod length s) s 0.
Proof.
  revert i; induction r as [|r IH]; intros i Hi; [lia|].
  simpl. destruct (Nat.lt_ge_cases i (length s)) as [Hlt|Hge].
  - rewrite app_nth1 by exact Hlt. rewrite Nat.mod_small by exact Hlt. reflexivity.
  - rewrite app_nth2 by exact Hge. rewrite IH by lia.
    f_equal. replace i with ((i - length s) + 1 * length s)%nat at 2 by lia.
    rewrite Nat.Div0.mod_add. reflexivity.
Qed.

Lemma repeat_count_ok (n k : nat) :
  k <> O ->
  Z.to_nat (Z.of_nat n / Z.of_nat k + 1) = (n / k + 1)%nat /\
  (n < k * (n / k + 1))%nat.
Proof.
  intros Hk. split.
  - rewrite <- Nat2Z.inj_div.
    replace (Z.of_nat (n / k) + 1) with (Z.of_nat (n / k + 1)) by lia.
    apply Nat2Z.id.
  - pose proof (Nat.div_mod_eq n k). pose proof (Nat.mod_upper_bound n k Hk). nia.
Qed.

Lemma nth_map_lt (f : Z -> Z) (l : list Z) i d :
  (i < length l)%nat -> nth i (map f l) d = f (nth i l 0).
Proof.
  revert i; induction l as [|x l IH]; intros [|i] Hi; simpl in *; try lia; auto.
  apply IH; lia.
Qed.

(** The key stream [s * r] covers the text, position by position. *)
Lemma translate_list_ok mode D K T :
  K <> [] ->
  exists out,
    translate_list mode D K T = Some out /\ length out = length T /\
    forall i, (i < length T)%nat ->
      nth i out 0 =
      (if mode then
         (fun x => if x <? D then x else x - D) (nth i T 0 + nth (i mod length K) K 0)
       else
         (fun x => if x >? -1 then x else x + D) (nth i T 0 - nth (i mod length K) K 0)).
Proof.
  intros HK.
  assert (Hk : length K <> O) by (destruct K; simpl; congruence).
  destruct (repeat_count_ok (length T) (length K) Hk) as [Hr Hcov].
  unfold translate_list, py_list_mul. rewrite Hr.
  replace (Z.of_nat (length K) =? 0) with false by lia.
  set (ks := concat (repeat K (length T / length K + 1))).
  assert (Hks : length ks = (length K * (length T / length K + 1))%nat)
    by apply concat_repeat_length.
  destruct mode; eexists; (split; [reflexivity|]);
    (split; [rewrite length_map, py_map2_length; lia|]);
    intros i Hi.
  - rewrite nth_map_lt by (rewrite py_map2_length; lia).
    rewrite py_map2_nth by lia.
    unfold ks; rewrite concat_repeat_nth by lia; reflexivity.
  - rewrite nth_map_lt by (rewrite py_map2_length; lia).
    rewrite py_map2_nth by lia.
    unfold ks; rewrite concat_repeat_nth by lia; reflexivity.
Qed.

Lemma wrap_add_mod D x k :
  0 <= x < D -> 0 <= k < D -> (if x + k <? D then x + k else x + k - D) = (x + k) mod D.
Proof.
  intros Hx Hk. destruct (Z.ltb_spec (x + k) D).
  - rewrite Z.mod_small; lia.
  - replace (x + k) with ((x + k - D) + 1 * D) at 2 by ring.
    rewrite Z.mod_add by lia. rewrite Z.mod_small; lia.
Qed.

Lemma wrap_sub_mod D x k :
  0 <= x < D -> 0 <= k < D -> (if x - k >? -1 then x - k else x - k + D) = (x - k) mod D.
Proof.
  intros Hx Hk. destruct (Z.gtb_spec (x - k) (-1)).
  - rewrite Z.mod_small; lia.
  - replace (x - k) with ((x - k + D) + (-1) * D) at 2 by ring.
    rewrite Z.mod_add by lia. rewrite Z.mod_small; lia.
Qed.

Definition in_range (D : Z) (l : list Z) : Prop := Forall (fun x => 0 <= x < D) l.

Lemma in_range_nth D l i : in_range D l -> (i < length l)%nat -> 0 <= nth i l 0 < D.
Proof.
  intros H Hi. unfold in_range in H. rewrite Forall_forall in H. apply H, nth_In, Hi.
Qed.

Lemma in_range_nth_mod D l i : in_range D l -> l <> [] -> 0 <= nth (i mod length l) l 0 < D.
Proof.
  intros H Hne. apply in_range_nth; [exact H|].
  apply Nat.mod_upper_bound. destruct l; simpl; congruence.
Qed.

Lemma in_range_intro D l : (forall i, (i < length l)%nat -> 0 <= nth i l 0 < D) -> in_range D l.
Proof.
  intros H. unfold in_range. apply Forall_forall. intros x Hx.
  destruct (In_nth l x 0 Hx) as [i [Hi <-]]. apply H, Hi.
Qed.

Lemma translate_fw_mod D K T :
  K <> [] -> in_range D K -> in_range D T ->
  exists out, translate_list true D K T = Some out /\ length out = length T /\
    forall i, (i < length T)%nat ->
      nth i out 0 = (nth i T 0 + nth (i mod length K) K 0) mod D.
Proof.
  intros HK HKr HTr.
  destruct (translate_list_ok true D K T HK) as [out [Hout [Hlen Hnth]]].
  exists out. repeat split; auto. intros i Hi. rewrite Hnth by exact Hi.
  apply wrap_add_mod; [apply in_range_nth; auto | apply in_range_nth_mod; auto].
Qed.

Lemma translate_bw_mod D K T :
  K <> [] -> in_range D K -> in_range D T ->
  exists out, translate_list false D K T = Some out /\ length out = length T /\
    forall i, (i < length T)%nat ->
      nth i out 0 = (nth i T 0 - nth (i mod length K) K 0) mod D.
Proof.
  intros HK HKr HTr.
  destruct (translate_list_ok false D K T HK) as [out [Hout [Hlen Hnth]]].
  exists out. repeat split; auto. intros i Hi. rewrite Hnth by exact Hi.
  apply wrap_sub_mod; [apply in_range_nth; auto | apply in_range_nth_mod; auto].
Qed.

Lemma translate_list_range mode D K T :
  K <> [] -> in_range D K -> in_range D T ->
  exists out, translate_list mode D K T = Some out /\ length out = length T /\ in_range D out.
Proof.
  intros HK HKr HTr.
  assert (HD : 0 < D) by
    (destruct K as [|k K']; [congruence|]; inversion HKr; lia).
  destruct mode.
  - destruct (translate_fw_mod D K T HK HKr HTr) as [out [Ho [Hl Hn]]].
    exists out. repeat split; auto. apply in_range_intro. intros i Hi.
    rewrite Hn by lia. apply Z.mod_pos_bound; lia.
  - destruct (translate_bw_mod D K T HK HKr HTr) as [out [Ho [Hl Hn]]].
    exists out. repeat split; auto. apply in_range_intro. intros i Hi.
    rewrite Hn by lia. apply Z.mod_pos_bound; lia.
Qed.

Lemma render_ok f t :
  in_range (Z.of_nat (length f)) t ->
  exists o, render f t = Some o /\ length o = length t.
Proof.
  induction t as [|x t IH]; intros H; simpl; [eauto|].
  inversion H as [|? ? Hx Ht]; subst.
  unfold py_getitem at 1.
  replace ((0 <=? x) && (x <? Z.of_nat (length f))) with true
    by (symmetry; apply andb_true_intro; split; [apply Z.leb_le|apply Z.ltb_lt]; lia).
  destruct (IH Ht) as [o [Ho Hl]]. rewrite Ho. simpl. eexists; split; [reflexivity|].
  simpl; lia.
Qed.

(** ** Claims *)

(** C2: with a non-empty key [K] (length [k]) over an alphabet of size [D]
    and text indices [T] (length [n]), [_translate] stores a list of length
    [n] whose [i]-th entry is [(T[i] + K[i mod k]) mod D] in forward mode
    and [(T[i] - K[i mod k]) mod D] in reverse mode; and on the alphabet
    [num] with key ["137"], [encode("582")] returns ["619"] and
    [decode("619")] returns ["582"]. *)
Theorem C2_translate_stream (c : cipher) (s0 : st) :
  let D := Z.of_nat (length (dictionary c)) in
  let K := secretkey c in
  let T := text s0 in
  K <> [] -> in_range D K -> in_range D T ->
  (exists out,
     _translate c true s0 = (inr tt, mk_st out (signature s0) (draws s0)) /\
     length out = length T /\
     forall i, (i < length T)%nat ->
       nth i out 0 = (nth i T 0 + nth (i mod length K) K 0) mod D) /\
  (exists out,
     _translate c false s0 = (inr tt, mk_st out (signature s0) (draws s0)) /\
     length out = length T /\
     forall i, (i < length T)%nat ->
       nth i out 0 = (nth i T 0 - nth (i mod length K) K 0) mod D) /\
  (forall h s1,
     match init "num" (str "137") [] with
     | inr (c', _) =>
         fst (encode h c' (str "582") true false s1) = inr (str "619") /\
         fst (decode h c' (str "619") s1) = inr (str "582")
     | inl _ => False
     end).
Proof.
  intros D K T HK HKr HTr. split; [|split].
  - destruct (translate_fw_mod D K T HK HKr HTr) as [out [Ho [Hl Hn]]].
    exists out. split; [|split; assumption].
    unfold _translate, bind, get_text, lift. fold D K T. rewrite Ho. reflexivity.
  - destruct (translate_bw_mod D K T HK HKr HTr) as [out [Ho [Hl Hn]]].
    exists out. split; [|split; assumption].
    unfold _translate, bind, get_text, lift. fold D K T. rewrite Ho. reflexivity.
  - intros h s1. split; reflexivity.
Qed.

Lemma C2_translate_stream_witness :
  let c := mk_cipher NUM [1; 3; 7] in
  let s0 := mk_st [5; 8; 2] None [] in
  ([1; 3; 7] <> [] /\ in_range 10 [1; 3; 7] /\ in_range 10 [5; 8; 2]) /\
  ((exists out,
     _translate c true s0 = (inr tt, mk_st out (signature s0) (draws s0)) /\
     length out = length (text s0) /\
     forall i, (i < length (text s0))%nat ->
       nth i out 0 = (nth i (text s0) 0 + nth (i mod length (secretkey c)) (secretkey c) 0)
                     mod Z.of_nat (length (dictionary c))) /\
   (exists out,
     _translate c false s0 = (inr tt, mk_st out (signature s0) (draws s0)) /\
     length out = length (text s0) /\
     forall i, (i < length (text s0))%nat ->
       nth i out 0 = (nth i (text s0) 0 - nth (i mod length (secretkey c)) (secretkey c) 0)
                     mod Z.of_nat (length (dictionary c))) /\
   (forall h s1,
     match init "num" (str "137") [] with
     | inr (c', _) =>
         fst (encode h c' (str "582") true false s1) = inr (str "619") /\
         fst (decode h c' (str "619") s1) = inr (str "582")
     | inl _ => False
     end)).
Proof.
  intros c s0.
  assert (H : [1; 3; 7] <> [] /\ in_range 10 [1; 3; 7] /\ in_range 10 [5; 8; 2]).
  { split; [discriminate|]. unfold in_range. split; repeat constructor; lia. }
  split; [exact H|].
  destruct H as [H1 [H2 H3]].
  exact (C2_translate_stream c s0 H1 H2 H3).
Defined.

(** C9: for a non-empty key with entries in [[0, D)] and a text whose
    indices lie in [[0, D)], [_translate] (either mode) stores indices that
    again lie in [[0, D)], and [_output] then renders them without an
    [IndexError]. *)
Theorem C9_translate_in_range (c : cipher) (mode : bool) (s0 : st) :
  let D := Z.of_nat (length (dictionary c)) in
  secretkey c <> [] -> in_range D (secretkey c) -> in_range D (text s0) ->
  exists out o,
    _translate c mode s0 = (inr tt, mk_st out (signature s0) (draws s0)) /\
    in_range D out /\
    _output c (mk_st out (signature s0) (draws s0)) =
      (inr o, mk_st out (signature s0) (draws s0)).
Proof.
  intros D HK HKr HTr.
  destruct (translate_list_range mode D (secretkey c) (text s0) HK HKr HTr)
    as [out [Ho [Hl Hr]]].
  destruct (render_ok (dictionary c) out Hr) as [o [Hro _]].
  exists out, o. split; [|split; [exact Hr|]].
  - unfold _translate, bind, get_text, lift. fold D. rewrite Ho. reflexivity.
  - unfold _output, bind, get_text, lift. simpl. rewrite Hro. reflexivity.
Qed.

Lemma C9_translate_in_range_witness :
  let c := mk_cipher NUM [1; 3; 7] in
  let s0 := mk_st [5; 8; 2] None [] in
  ([1; 3; 7] <> [] /\ in_range 10 [1; 3; 7] /\ in_range 10 [5; 8; 2]) /\
  exists out o,
    _translate c false s0 = (inr tt, mk_st out (signature s0) (draws s0)) /\
    in_range (Z.of_nat (length (dictionary c))) out /\
    _output c (mk_st out (signature s0) (draws s0)) =
      (inr o, mk_st out (signature s0) (draws s0)).
Proof.
  intros c s0.
  assert (H : [1; 3; 7] <> [] /\ in_range 10 [1; 3; 7] /\ in_range 10 [5; 8; 2]).
  { split; [discriminate|]. unfold in_range. split; repeat constructor; lia. }
  split; [exact H|].
  destruct H as [H1 [H2 H3]].
  exact (C9_translate_in_range c false s0 H1 H2 H3).
Defined.

(** ** Running the monad *)

Lemma bind_inr {A B} (m : M A) (k : A -> M B) s b s'' :
  bind m k s = (inr b, s'') -> exists a s', m s = (inr a, s') /\ k a s' = (inr b, s'').
Proof.
  unfold bind. destruct (m s) as [[e|a] s'] eqn:E; [discriminate|]. eauto.
Qed.

Lemma lift_inr {A} e (o : option A) s a s' :
  lift e o s = (inr a, s') -> o = Some a /\ s' = s.
Proof.
  destruct o; simpl; unfold ret, raise; intros H; inversion H; auto.
Qed.

(** A computation that leaves [self.signature] alone. *)
Definition sig_frame {A} (m : M A) : Prop :=
  forall s, signature (snd (m s)) = signature s.

Lemma ret_frame {A} (a : A) : sig_frame (ret a).
Proof. intros s; reflexivity. Qed.

Lemma raise_frame {A} e : sig_frame (@raise A e).
Proof. intros s; reflexivity. Qed.

Lemma lift_frame {A} e (o : option A) : sig_frame (lift e o).
Proof. destruct o; intros s; reflexivity. Qed.

Lemma get_text_frame : sig_frame get_text.
Proof. intros s; reflexivity. Qed.

Lemma set_text_frame t : sig_frame (set_text t).
Proof. intros s; reflexivity. Qed.

Lemma random_frame : sig_frame random.
Proof. intros s; unfold random; destruct (draws s); reflexivity. Qed.

Lemma bind_frame {A B} (m : M A) (k : A -> M B) :
  sig_frame m -> (forall a, sig_frame (k a)) -> sig_frame (bind m k).
Proof.
  intros Hm Hk s. unfold bind. specialize (Hm s).
  destruct (m s) as [[e|a] s'] eqn:E; simpl in *; [exact Hm|].
  rewrite Hk. exact Hm.
Qed.

Create HintDb frame.
#[local] Hint Resolve ret_frame raise_frame lift_frame get_text_frame set_text_frame
  random_frame : frame.
#[local] Hint Extern 1 (sig_frame (bind _ _)) => apply bind_frame; intros : frame.
#[local] Hint Extern 1 (sig_frame (if _ then _ else _)) =>
  match goal with |- sig_frame (if ?b then _ else _) => destruct b end : frame.
#[local] Hint Extern 2 (sig_frame (let _ := _ in _)) => cbv zeta : frame.

Lemma redraw_frame fuel c2 max : sig_frame (redraw fuel c2 max).
Proof. induction fuel; simpl; auto with frame. Qed.
#[local] Hint Resolve redraw_frame : frame.

Lemma draw_disturbance_frame c2 max : sig_frame (draw_disturbance c2 max).
Proof. intros s. apply redraw_frame. Qed.
#[local] Hint Resolve draw_disturbance_frame : frame.

Lemma append_disturbance_frame n max : sig_frame (append_disturbance n max).
Proof. induction n; simpl; auto with frame. Qed.
#[local] Hint Resolve append_disturbance_frame : frame.

Lemma fill_parts_frame ps max : sig_frame (fill_parts ps max).
Proof. induction ps; simpl; auto with frame. Qed.
#[local] Hint Resolve fill_parts_frame : frame.

Lemma _translate_frame self mode : sig_frame (_translate self mode).
Proof. unfold _translate; auto with frame. Qed.

Lemma _wide_frame self mode l : sig_frame (_wide self mode l).
Proof. unfold _wide; destruct mode; auto 20 with frame. Qed.

Lemma _output_frame self : sig_frame (_output self).
Proof. unfold _output; auto with frame. Qed.

Lemma _build_input_frame self t : sig_frame (_build_input self t).
Proof. unfold _build_input; auto with frame. Qed.
#[local] Hint Resolve _translate_frame _wide_frame _output_frame _build_input_frame : frame.

(** A computation that either leaves [self.signature] alone or stores
    [g] in it, and has stored [g] whenever it returns normally. *)
Definition signs {A} (g : list Z) (m : M A) : Prop :=
  forall s,
    (signature (snd (m s)) = signature s \/ signature (snd (m s)) = Some g) /\
    (forall a, fst (m s) = inr a -> signature (snd (m s)) = Some g).

Lemma signs_set_signature {A} g (k : M A) :
  sig_frame k -> signs g (set_signature g ;;; k).
Proof.
  intros Hk s. unfold bind, set_signature.
  rewrite (Hk (mk_st (text s) (Some g) (draws s))). simpl.
  split; [right; reflexivity|]. intros _ _. reflexivity.
Qed.

Lemma signs_bind {A B} g (m : M A) (k : A -> M B) :
  sig_frame m -> (forall a, signs g (k a)) -> signs g (bind m k).
Proof.
  intros Hm Hk s. unfold bind. specialize (Hm s).
  destruct (m s) as [[e|a] s'] eqn:E; simpl in *.
  - split; [left; exact Hm|]. intros a H; discriminate.
  - destruct (Hk a s') as [H1 H2]. rewrite Hm in H1. split; assumption.
Qed.

Lemma signs_raise {A} g e : signs g (@raise A e).
Proof. intros s. split; [left; reflexivity|]. intros a H; discriminate. Qed.

(** C7: when [lenght <= len(text) + 2], [wencode] raises (the [assert])
    and the state, [self.text] and [self.signature] included, is the one
    it was called in. *)
Theorem C7_wencode_rejects_short (h : list Z -> list Z) (c : cipher) (T : list Z)
    (L : Z) (cs : bool) (s0 : st) :
  L <= Z.of_nat (length T) + 2 ->
  wencode h c T L cs s0 = (inl AssertionError, s0).
Proof.
  intros HL. unfold wencode.
  replace (L >? Z.of_nat (length T) + 2) with false by lia. reflexivity.
Qed.

Lemma C7_wencode_rejects_short_witness :
  5 <= Z.of_nat (length (str "582")) + 2 /\
  wencode (fun x => x) (mk_cipher NUM [1; 3; 7]) (str "582") 5 true
    (mk_st [4] (Some [7]) [1 # 2]) =
  (inl AssertionError, mk_st [4] (Some [7]) [1 # 2]).
Proof.
  split; [simpl; lia|].
  apply C7_wencode_rejects_short. simpl; lia.
Defined.

(** C10: for every [L > 2], [wencode("", L)] passes the length check and
    then raises [IndexError] at [t.insert(0, t[0])] on the empty buffer. *)
Theorem C10_wencode_empty_index_error (h : list Z -> list Z) (c : cipher) (L : Z)
    (cs : bool) (s0 : st) :
  L > 2 ->
  (L >? Z.of_nat (length (@nil Z)) + 2) = true /\
  fst (wencode h c [] L cs s0) = inl IndexError.
Proof.
  intros HL. assert (Hg : (L >? Z.of_nat (length (@nil Z)) + 2) = true) by (simpl; lia).
  split; [exact Hg|].
  unfold wencode. rewrite Hg. reflexivity.
Qed.

Lemma C10_wencode_empty_index_error_witness :
  10 > 2 /\
  ((10 >? Z.of_nat (length (@nil Z)) + 2) = true /\
   fst (wencode (fun x => x) (mk_cipher NUM [1; 3; 7]) [] 10 false
          (mk_st [] None [1 # 2])) = inl IndexError).
Proof.
  split; [lia|].
  apply C10_wencode_empty_index_error. lia.
Defined.

(** C8: [self.signature] is [None] after [__init__]; [decode], [wdecode],
    [verify], and [encode]/[wencode] without signing leave it as it was;
    [encode]/[wencode] with signing either leave it as it was (when they
    raise before signing) or store the digest of the plaintext, and they
    have stored it whenever they return. *)
Theorem C8_signature_frame :
  (forall name key rs,
     match init name key rs with
     | inr (_, s0) => signature s0 = None
     | inl _ => True
     end) /\
  (forall h c T s0, signature (snd (decode h c T s0)) = signature s0) /\
  (forall c T s0, signature (snd (wdecode c T s0)) = signature s0) /\
  (forall h c g s0, signature (snd (verify h c g s0)) = signature s0) /\
  (forall h c T mode s0, signature (snd (encode h c T mode false s0)) = signature s0) /\
  (forall h c T L s0, signature (snd (wencode h c T L false s0)) = signature s0) /\
  (forall h c T mode s0,
     let r := encode h c T mode true s0 in
     (signature (snd r) = signature s0 \/ signature (snd r) = Some (h T)) /\
     (forall o, fst r = inr o -> signature (snd r) = Some (h T))) /\
  (forall h c T L s0,
     let r := wencode h c T L true s0 in
     (signature (snd r) = signature s0 \/ signature (snd r) = Some (h T)) /\
     (forall o, fst r = inr o -> signature (snd r) = Some (h T))).
Proof.
  split; [|split; [|split; [|split; [|split; [|split; [|split]]]]]].
  - intros name key rs. unfold init.
    destruct (DIZ name); [|exact I]. destruct (build_indices l key); [|exact I].
    reflexivity.
  - intros h c T s0. enough (H : sig_frame (decode h c T)) by apply H.
    unfold decode, encode. auto 20 with frame.
  - intros c T s0. enough (H : sig_frame (wdecode c T)) by apply H.
    unfold wdecode. auto 20 with frame.
  - intros h c g s0. enough (H : sig_frame (verify h c g)) by apply H.
    unfold verify. auto 20 with frame.
  - intros h c T mode s0. enough (H : sig_frame (encode h c T mode false)) by apply H.
    unfold encode. auto 20 with frame.
  - intros h c T L s0. enough (H : sig_frame (wencode h c T L false)) by apply H.
    unfold wencode. auto 20 with frame.
  - intros h c T mode s0. cbv zeta.
    enough (H : signs (h T) (encode h c T mode true)) by apply H.
    unfold encode.
    repeat (apply signs_bind; [solve [auto 20 with frame]|intros]).
    unfold _sign; apply signs_set_signature. auto with frame.
  - intros h c T L s0. cbv zeta.
    enough (H : signs (h T) (wencode h c T L true)) by apply H.
    unfold wencode.
    destruct (L >? Z.of_nat (length T) + 2); [|apply signs_raise].
    repeat (apply signs_bind; [solve [auto 20 with frame]|intros]).
    unfold _sign; apply signs_set_signature. auto with frame.
Qed.

(** ** The scan of [_wide(0)] *)

Lemma find_pair_spec t x :
  find_pair t = Some x ->
  (x + 1 < length t)%nat /\ nth x t 0 = nth (x + 1) t 0 /\
  forall y, (y < x)%nat -> nth y t 0 <> nth (y + 1) t 0.
Proof.
  revert x; induction t as [|a t IH]; intros x H; [discriminate|].
  destruct t as [|b r]; [discriminate|].
  change (find_pair (a :: b :: r)) with
    (if Z.eqb a b then Some O else option_map S (find_pair (b :: r))) in H.
  destruct (Z.eqb_spec a b) as [Hab|Hab].
  - inversion H; subst. simpl. split; [lia|]. split; [reflexivity|]. intros; lia.
  - destruct (find_pair (b :: r)) as [x'|] eqn:E; [|simpl in H; discriminate].
    simpl in H. inversion H; subst x. clear H.
    destruct (IH x' eq_refl) as [H1 [H2 H3]].
    split; [simpl in *; lia|]. split.
    + replace (S x' + 1)%nat with (S (x' + 1)) by lia. exact H2.
    + intros [|y] Hy; [exact Hab|].
      replace (S y + 1)%nat with (S (y + 1)) by lia. apply H3. lia.
Qed.

(** ** The disturbance draws of [_wide(1)] *)

Definition unit_q (q : Q) : Prop := (0 <= q /\ q < 1)%Q.

Lemma py_int_range q m :
  unit_q q -> 0 <= m -> 0 <= py_int (q * inject_Z m) <= Z.max 0 (m - 1).
Proof.
  intros [Hq0 Hq1] Hm.
  assert (Hm' : (0 <= inject_Z m)%Q) by (change 0%Q with (inject_Z 0); rewrite <- Zle_Qle; exact Hm).
  assert (Hx : (0 <= q * inject_Z m)%Q) by (apply Qmult_le_0_compat; assumption).
  unfold py_int. rewrite (proj2 (Qle_bool_iff _ _) Hx).
  pose proof (Qfloor_resp_le 0 _ Hx) as Hlo. change (Qfloor 0) with 0 in Hlo.
  pose proof (Qfloor_le (q * inject_Z m)) as Hfl.
  split; [exact Hlo|].
  destruct (Z.eq_dec m 0) as [->|Hne].
  - assert (H0 : (inject_Z (Qfloor (q * inject_Z 0)) <= inject_Z 0)%Q).
    { eapply Qle_trans; [exact Hfl|]. rewrite Qmult_0_r. apply Qle_refl. }
    rewrite <- Zle_Qle in H0. lia.
  - assert (Hpos : (0 < inject_Z m)%Q) by (change 0%Q with (inject_Z 0); rewrite <- Zlt_Qlt; lia).
    assert (Hlt : (q * inject_Z m < 1 * inject_Z m)%Q) by (apply Qmult_lt_compat_r; assumption).
    rewrite Qmult_1_l in Hlt.
    assert (H1 : (inject_Z (Qfloor (q * inject_Z m)) < inject_Z m)%Q)
      by (eapply Qle_lt_trans; [exact Hfl|exact Hlt]).
    rewrite <- Zlt_Qlt in H1. lia.
Qed.

Lemma redraw_ok fuel c2 max s v s' :
  Forall unit_q (draws s) -> 0 <= max ->
  redraw fuel c2 max s = (inr v, s') ->
  v <> c2 /\ 0 <= v <= Z.max 0 (max - 1) /\
  text s' = text s /\ signature s' = signature s /\ Forall unit_q (draws s').
Proof.
  revert s; induction fuel as [|fuel IH]; intros s Hd Hm H; [discriminate|].
  simpl in H. unfold bind, random in H.
  destruct (draws s) as [|q rs] eqn:Ed; [discriminate|].
  inversion Hd as [|? ? Hq Hrs]; subst.
  destruct (Z.eqb_spec (py_int (q * inject_Z max)) c2) as [Heq|Hne].
  - destruct (IH _ (Hrs : Forall unit_q (draws (mk_st (text s) (signature s) rs))) Hm H) as [H1 [H2 [H3 [H4 H5]]]]. simpl in *.
    repeat split; auto; lia.
  - unfold ret in H. inversion H; subst. simpl.
    pose proof (py_int_range q max Hq Hm). repeat split; auto; lia.
Qed.

Lemma hd_skipn (t : list Z) k :
  (k < length t)%nat -> hd_error (skipn k t) = Some (nth k t 0).
Proof.
  revert t; induction k as [|k IH]; intros [|a t] Hlt; simpl in *; try lia; auto.
  apply IH. lia.
Qed.

(** C4 (as the code does it): when the scan of a pass of [_wide(0)] finds
    its first index [x] with [t[x] == t[x+1]], the pass keeps [t[x + 1:]],
    which starts with the pair's second element (only [t[0..x]] is
    discarded), and reverses it. *)
Theorem C4_unwide_pass_keeps_second (t : list Z) (x : nat) :
  find_pair t = Some x ->
  ((x + 1 < length t)%nat /\ nth x t 0 = nth (x + 1) t 0 /\
   forall y, (y < x)%nat -> nth y t 0 <> nth (y + 1) t 0) /\
  unwide_pass t = Some (rev (skipn (x + 1) t)) /\
  hd_error (skipn (x + 1) t) = Some (nth (x + 1) t 0).
Proof.
  intros H. pose proof (find_pair_spec t x H) as Hs. split; [exact Hs|].
  split; [unfold unwide_pass; rewrite H; reflexivity|].
  destruct Hs as [Hlt _]. apply hd_skipn. exact Hlt.
Qed.

Lemma C4_unwide_pass_keeps_second_witness :
  let t : list Z := [3; 1; 1; 2; 5] in
  find_pair t = Some 1%nat /\
  (((1 + 1 < length t)%nat /\ nth 1 t 0 = nth (1 + 1) t 0 /\
    forall y, (y < 1)%nat -> nth y t 0 <> nth (y + 1) t 0) /\
   unwide_pass t = Some (rev (skipn (1 + 1) t)) /\
   hd_error (skipn (1 + 1) t) = Some (nth (1 + 1) t 0)).
Proof.
  intros t. split; [reflexivity|]. apply C4_unwide_pass_keeps_second. reflexivity.
Defined.

(** C4 as stated is false: on [[3; 1; 1; 2; 5]] the first pair is at
    [x = 1], and the pass keeps [[1; 2; 5]] (from [x + 1]), not [[2; 5]]
    (from [x + 2]). *)
Lemma C4_counterexample :
  ~ (forall t x, find_pair t = Some x ->
       unwide_pass t = Some (rev (skipn (x + 2) t))).
Proof.
  intros H. specialize (H [3; 1; 1; 2; 5] 1%nat eq_refl).
  vm_compute in H. discriminate H.
Qed.

(** C5 (the code's behaviour): in [_wide(1)], with [max = len(dictionary) - 1],
    every disturbance index [int(r() * max)] the loop keeps differs from the
    buffer's last element and lies in [[0, D - 1)]: the index [D - 1] is
    never drawn, so the draw is not over the full range [[0, D)]. *)
Theorem C5_disturbance_never_last_index (c : cipher) (c2 v : Z) (s0 s1 : st) :
  let D := Z.of_nat (length (dictionary c)) in
  2 <= D -> Forall unit_q (draws s0) ->
  draw_disturbance c2 (D - 1) s0 = (inr v, s1) ->
  v <> c2 /\ 0 <= v < D - 1 /\ v <> D - 1.
Proof.
  intros D HD Hd H.
  destruct (redraw_ok (length (draws s0)) c2 (D - 1) s0 v s1 Hd ltac:(lia) H) as [H1 [H2 _]].
  repeat split; auto; lia.
Qed.

Lemma C5_disturbance_never_last_index_witness :
  (2 <= Z.of_nat (length NUM) /\ Forall unit_q [999 # 1000]) /\
  draw_disturbance 3 (Z.of_nat (length NUM) - 1) (mk_st [3] None [999 # 1000]) =
    (inr 8, mk_st [3] None []) /\
  (8 <> 3 /\ 0 <= 8 < Z.of_nat (length NUM) - 1 /\ 8 <> Z.of_nat (length NUM) - 1).
Proof.
  assert (Hr : draw_disturbance 3 (Z.of_nat (length NUM) - 1) (mk_st [3] None [999 # 1000]) =
    (inr 8, mk_st [3] None [])) by reflexivity.
  assert (H2 : 2 <= Z.of_nat (length NUM)) by (vm_compute; discriminate).
  assert (Hd : Forall unit_q [999 # 1000])
    by (repeat constructor; unfold Qle, Qlt; simpl; lia).
  split; [split; assumption|]. split; [exact Hr|].
  exact (C5_disturbance_never_last_index (mk_cipher NUM []) 3 8
           (mk_st [3] None [999 # 1000]) (mk_st [3] None []) H2 Hd Hr).
Defined.

(** ** Index encoding and rendering *)

Lemma py_index_spec d ch i :
  py_index d ch = Some i ->
  0 <= i < Z.of_nat (length d) /\ nth (Z.to_nat i) d 0 = ch.
Proof.
  revert i; induction d as [|y d IH]; intros i H; simpl in H; [discriminate|].
  destruct (Z.eqb_spec y ch) as [->|Hne].
  - inversion H; subst. simpl. lia.
  - destruct (py_index d ch) as [j|] eqn:E; simpl in H; [|discriminate].
    inversion H; subst i. destruct (IH j eq_refl) as [H1 H2].
    split; [simpl; lia|].
    replace (Z.to_nat (Z.succ j)) with (S (Z.to_nat j)) by lia. exact H2.
Qed.

Lemma py_index_In d ch : In ch d -> exists i, py_index d ch = Some i.
Proof.
  induction d as [|y d IH]; intros H; [destruct H|]. simpl.
  destruct (Z.eqb_spec y ch); [eauto|].
  destruct H as [->|H]; [congruence|]. destruct (IH H) as [i Hi]. rewrite Hi. simpl; eauto.
Qed.

Lemma py_getitem_in d i :
  0 <= i < Z.of_nat (length d) -> py_getitem d i = Some (nth (Z.to_nat i) d 0).
Proof.
  intros H. unfold py_getitem.
  replace ((0 <=? i) && (i <? Z.of_nat (length d))) with true
    by (symmetry; apply andb_true_intro; split; [apply Z.leb_le|apply Z.ltb_lt]; lia).
  reflexivity.
Qed.

Lemma build_indices_spec d T I :
  build_indices d T = Some I ->
  in_range (Z.of_nat (length d)) I /\ length I = length T /\ render d I = Some T.
Proof.
  revert I; induction T as [|ch T IH]; intros I H; simpl in H.
  - inversion H; subst. repeat split; constructor.
  - destruct (py_index d ch) as [i|] eqn:Ei; [|discriminate].
    destruct (build_indices d T) as [I'|] eqn:E; simpl in H; [|discriminate].
    inversion H; subst I. destruct (IH I' eq_refl) as [H1 [H2 H3]].
    destruct (py_index_spec d ch i Ei) as [Hr Hn].
    split; [constructor; assumption|]. split; [simpl; lia|].
    simpl. rewrite py_getitem_in by exact Hr. rewrite Hn, H3. reflexivity.
Qed.

Lemma build_indices_In d T :
  Forall (fun ch => In ch d) T -> exists I, build_indices d T = Some I.
Proof.
  induction T as [|ch T IH]; intros H; simpl; [eauto|].
  inversion H as [|? ? Hch HT]; subst.
  destruct (py_index_In d ch Hch) as [i Hi]. rewrite Hi.
  destruct (IH HT) as [I HI]. rewrite HI. simpl; eauto.
Qed.

(** [dictionary.index] inverts the positional lookup: no symbol occurs
    twice. *)
Definition index_inverse (d : list Z) : Prop :=
  forall i, (i < length d)%nat -> py_index d (nth i d 0) = Some (Z.of_nat i).

Definition index_inverseb (d : list Z) : bool :=
  forallb (fun i => match py_index d (nth i d 0) with
                    | Some j => Z.eqb j (Z.of_nat i)
                    | None => false
                    end) (seq 0 (length d)).

Lemma index_inverseb_ok d : index_inverseb d = true -> index_inverse d.
Proof.
  intros H i Hi. unfold index_inverseb in H. rewrite forallb_forall in H.
  specialize (H i (proj2 (in_seq _ _ _) (conj (Nat.le_0_l i) Hi))).
  destruct (py_index d (nth i d 0)); [|discriminate].
  apply Z.eqb_eq in H. subst. reflexivity.
Qed.

Lemma DIZ_index_inverse name d : DIZ name = Some d -> index_inverse d.
Proof.
  unfold DIZ. intros H.
  repeat (destruct (String.eqb _ _); [inversion H; subst; apply index_inverseb_ok;
                                      vm_compute; reflexivity|]).
  discriminate.
Qed.

Lemma render_build d I :
  index_inverse d -> in_range (Z.of_nat (length d)) I ->
  exists o, render d I = Some o /\ length o = length I /\ build_indices d o = Some I.
Proof.
  intros Hinv. induction I as [|x I IH]; intros H; simpl; [eauto|].
  inversion H as [|? ? Hx HI]; subst.
  rewrite py_getitem_in by exact Hx.
  destruct (IH HI) as [o [Ho [Hl Hb]]]. rewrite Ho. simpl.
  eexists; split; [reflexivity|]. split; [simpl; lia|].
  simpl. rewrite Hinv by lia. rewrite Z2Nat.id by lia. rewrite Hb. reflexivity.
Qed.

Lemma init_spec name key rs c s0 :
  init name key rs = inr (c, s0) ->
  DIZ name = Some (dictionary c) /\ build_indices (dictionary c) key = Some (secretkey c) /\
  s0 = mk_st [] None rs.
Proof.
  unfold init. destruct (DIZ name) as [d|]; [|discriminate].
  destruct (build_indices d key) as [k|] eqn:E; [|discriminate].
  intros H; inversion H; subst. simpl. auto.
Qed.

(** ** [_translate(0)] undoes [_translate(1)] *)

Lemma translate_roundtrip D K X Y :
  K <> [] -> in_range D K -> in_range D X ->
  translate_list true D K X = Some Y ->
  translate_list false D K Y = Some X /\ in_range D Y /\ length Y = length X.
Proof.
  intros HK HKr HX HY.
  destruct (translate_fw_mod D K X HK HKr HX) as [Y' [HY' [Hl Hn]]].
  rewrite HY in HY'. inversion HY'; subst Y'. clear HY'.
  destruct (translate_list_range true D K X HK HKr HX) as [Y' [HY' [_ Hr]]].
  rewrite HY in HY'. inversion HY'; subst Y'. clear HY'.
  destruct (translate_bw_mod D K Y HK HKr Hr) as [Z' [HZ [Hl' Hn']]].
  rewrite HZ. split; [|split; assumption]. f_equal.
  apply nth_ext with (d := 0) (d' := 0); [lia|].
  intros i Hi. rewrite Hn' by lia. rewrite Hn by lia.
  rewrite Zminus_mod_idemp_l. replace (nth i X 0 + nth (i mod length K) K 0 -
    nth (i mod length K) K 0) with (nth i X 0) by ring.
  apply Z.mod_small. apply in_range_nth; [exact HX|lia].
Qed.

(** ** Boundary markers and disturbance runs *)

(** Each element of [l] differs from the one before it, the first from [a]. *)
Fixpoint chain (a : Z) (l : list Z) : Prop :=
  match l with
  | [] => True
  | b :: l' => a <> b /\ chain b l'
  end.

Lemma find_pair_cons2 z w m :
  find_pair (z :: w :: m) = if Z.eqb z w then Some O else option_map S (find_pair (w :: m)).
Proof. reflexivity. Qed.

Lemma find_pair_snoc2 l x y :
  find_pair (l ++ [x]) = None -> x <> y -> find_pair (l ++ [x; y]) = None.
Proof.
  induction l as [|z l IH]; intros H Hxy.
  - simpl. destruct (Z.eqb_spec x y); [congruence|reflexivity].
  - destruct l as [|w l].
    + simpl in *. destruct (Z.eqb_spec z x); [discriminate|].
      destruct (Z.eqb_spec x y); [congruence|reflexivity].
    + cbn [app] in *. rewrite find_pair_cons2 in H |- *.
      destruct (Z.eqb z w); [simpl in H; discriminate|].
      destruct (find_pair (w :: l ++ [x])) eqn:E; [simpl in H; discriminate|].
      rewrite IH; auto.
Qed.

Lemma chain_no_pair a E : chain a E -> find_pair (rev E ++ [a]) = None.
Proof.
  revert a; induction E as [|b E IH]; intros a H; [reflexivity|].
  destruct H as [Hab H]. simpl. rewrite <- app_assoc. simpl.
  apply find_pair_snoc2; [apply IH; exact H|congruence].
Qed.

Lemma find_pair_marker l a m :
  find_pair (l ++ [a]) = None -> find_pair (l ++ a :: a :: m) = Some (length l).
Proof.
  induction l as [|z l IH]; intros H.
  - simpl. rewrite Z.eqb_refl. reflexivity.
  - destruct l as [|w l].
    + simpl in *. destruct (Z.eqb_spec z a); [discriminate|].
      rewrite Z.eqb_refl. reflexivity.
    + cbn [app] in *. rewrite find_pair_cons2 in H |- *.
      destruct (Z.eqb z w); [simpl in H; discriminate|].
      destruct (find_pair (w :: l ++ [a])) eqn:E; [simpl in H; discriminate|].
      rewrite IH by reflexivity. reflexivity.
Qed.

Lemma skipn_past (l : list Z) a m : skipn (length l + 1) (l ++ a :: m) = m.
Proof. induction l as [|x l IH]; simpl; auto. Qed.

(** The two passes of [_wide(0)] recover the payload from the layout
    [_wide(1)] produces: the reversed second run, the payload with its
    first and last element doubled, the first run. *)
Lemma unwide_loop_S m t :
  unwide_loop (S m) t = match unwide_pass t with
                        | Some t' => unwide_loop m t'
                        | None => []
                        end.
Proof. reflexivity. Qed.

Lemma unwide_layout I E1 E2 :
  I <> [] -> chain (last I 0) E1 -> chain (hd 0 I) E2 ->
  unwide (rev E2 ++ (hd 0 I :: I ++ [last I 0]) ++ E1) = I.
Proof.
  intros HI H1 H2. set (lst := last I 0) in *.
  assert (P1 : unwide_pass (rev E2 ++ (hd 0 I :: I ++ [lst]) ++ E1) =
               Some (rev (I ++ lst :: E1))).
  { destruct I as [|t0 tl]; [congruence|]. simpl hd in *.
    replace (rev E2 ++ (t0 :: (t0 :: tl) ++ [lst]) ++ E1)
      with (rev E2 ++ t0 :: t0 :: (tl ++ lst :: E1))
      by (simpl; rewrite <- app_assoc; reflexivity).
    unfold unwide_pass.
    rewrite find_pair_marker by (apply chain_no_pair; exact H2).
    rewrite skipn_past. reflexivity. }
  assert (P2 : unwide_pass (rev (I ++ lst :: E1)) = Some I).
  { replace (rev (I ++ lst :: E1)) with (rev E1 ++ lst :: lst :: rev (removelast I)).
    2:{ assert (HrI : rev I = lst :: rev (removelast I)).
        { unfold lst. rewrite (app_removelast_last 0 HI) at 1. apply rev_unit. }
        rewrite rev_app_distr. simpl. rewrite HrI, <- app_assoc. reflexivity. }
    unfold unwide_pass.
    rewrite find_pair_marker by (apply chain_no_pair; exact H1).
    rewrite skipn_past.
    change (lst :: rev (removelast I)) with (rev [lst] ++ rev (removelast I)).
    rewrite <- rev_app_distr, rev_involutive. unfold lst.
    rewrite <- (app_removelast_last 0 HI). reflexivity. }
  unfold unwide. rewrite unwide_loop_S, P1, unwide_loop_S, P2. reflexivity.
Qed.

(** ** A run of [_wide(1)] *)

Ltac run_step H :=
  let a := fresh "a" in let s1 := fresh "s" in let E := fresh "E" in
  apply bind_inr in H; destruct H as [a [s1 [E H]]].

Lemma last_In_ne (t : list Z) d : t <> [] -> In (last t d) t.
Proof.
  intros H. rewrite (app_removelast_last d H) at 2. apply in_or_app. right; left; reflexivity.
Qed.

Lemma hd_In_ne (t : list Z) d : t <> [] -> In (hd d t) t.
Proof. destruct t; [congruence|]. intros _; left; reflexivity. Qed.

Lemma last_rev_hd (t : list Z) d : last (rev t) d = hd d t.
Proof. destruct t as [|a t]; [reflexivity|]. simpl. apply last_last. Qed.

Lemma last_cons_ne (a : Z) t d : t <> [] -> last (a :: t) d = last t d.
Proof. destruct t; [congruence|]. reflexivity. Qed.

Lemma py_getitem_last t : t <> [] -> py_getitem t (-1) = Some (last t 0).
Proof.
  intros H. unfold py_getitem.
  assert (Hn : (1 <= length t)%nat) by (destruct t; [congruence|simpl; lia]).
  replace ((0 <=? -1) && (-1 <? Z.of_nat (length t))) with false by reflexivity.
  replace ((- Z.of_nat (length t) <=? -1) && (-1 <? 0)) with true
    by (symmetry; apply andb_true_intro; split; [apply Z.leb_le|apply Z.ltb_lt]; lia).
  f_equal. pose proof (app_removelast_last 0 H) as E.
  set (r := removelast t) in *. set (x := last t 0) in *.
  assert (Hl : length t = S (length r)) by (rewrite E; apply last_length).
  rewrite Hl. replace (Z.to_nat (Z.of_nat (S (length r)) + -1)) with (length r) by lia.
  rewrite E. apply nth_middle.
Qed.

Lemma py_getitem_first t : t <> [] -> py_getitem t 0 = Some (hd 0 t).
Proof. destruct t; [congruence|]. intros _. reflexivity. Qed.

Lemma append_disturbance_ok n max s s' :
  text s <> [] -> Forall unit_q (draws s) -> 0 <= max ->
  append_disturbance n max s = (inr tt, s') ->
  exists E, text s' = text s ++ E /\ length E = n /\ chain (last (text s) 0) E /\
    Forall (fun v => 0 <= v <= Z.max 0 (max - 1)) E /\
    Forall unit_q (draws s') /\ signature s' = signature s.
Proof.
  revert s; induction n as [|n IH]; intros s Ht Hd Hm H.
  - simpl in H. unfold ret in H. inversion H; subst.
    exists []. rewrite app_nil_r. repeat split; auto.
  - simpl in H.
    apply bind_inr in H; destruct H as [t [s1 [E1 H]]].
    unfold get_text in E1. inversion E1; subst t s1. clear E1.
    apply bind_inr in H; destruct H as [c2 [s2 [E2 H]]].
    apply lift_inr in E2. destruct E2 as [E2 ->].
    rewrite py_getitem_last in E2 by exact Ht. inversion E2; subst c2. clear E2.
    apply bind_inr in H; destruct H as [c1 [s3 [E3 H]]]. unfold draw_disturbance in E3.
    destruct (redraw_ok _ _ _ _ _ _ Hd Hm E3) as [Hne [Hr [Ht3 [Hs3 Hd3]]]]. clear E3.
    apply bind_inr in H; destruct H as [u [s4 [E4 H]]].
    unfold set_text in E4. inversion E4; subst s4. clear E4.
    assert (Ht4 : text s ++ [c1] <> []) by (destruct (text s); [congruence|discriminate]).
    destruct (IH (mk_st (text s ++ [c1]) (signature s3) (draws s3)) Ht4 Hd3 Hm H) as [E [HE [Hl [Hc [Hr' [Hd' Hs']]]]]].
    simpl in *. exists (c1 :: E). rewrite HE, <- app_assoc. simpl.
    split; [reflexivity|]. split; [simpl; lia|].
    split; [split; [congruence|]; rewrite last_last in Hc; exact Hc|].
    split; [constructor; assumption|]. split; [exact Hd'|]. congruence.
Qed.

Lemma fill_two_ok p1 p2 max s s' :
  text s <> [] -> Forall unit_q (draws s) -> 0 <= max ->
  fill_parts [p1; p2] max s = (inr tt, s') ->
  exists E1 E2,
    text s' = rev E2 ++ text s ++ E1 /\
    length E1 = Z.to_nat p1 /\ length E2 = Z.to_nat p2 /\
    chain (last (text s) 0) E1 /\ chain (hd 0 (text s)) E2 /\
    Forall (fun v => 0 <= v <= Z.max 0 (max - 1)) E1 /\
    Forall (fun v => 0 <= v <= Z.max 0 (max - 1)) E2 /\
    signature s' = signature s.
Proof.
  intros Ht Hd Hm H. simpl in H.
  apply bind_inr in H; destruct H as [[] [s1 [E1 H]]].
  destruct (append_disturbance_ok _ _ _ _ Ht Hd Hm E1)
    as [D1 [HD1 [Hl1 [Hc1 [Hr1 [Hd1 Hs1]]]]]]. clear E1.
  apply bind_inr in H; destruct H as [t [s2 [E2 H]]].
  unfold get_text in E2. inversion E2; subst t s2. clear E2.
  apply bind_inr in H; destruct H as [[] [s3 [E3 H]]].
  unfold set_text in E3. inversion E3; subst s3. clear E3.
  apply bind_inr in H; destruct H as [[] [s4 [E4 H]]].
  assert (Ht3 : text (mk_st (rev (text s1)) (signature s1) (draws s1)) <> []).
  { simpl. rewrite HD1. intros Hn. apply (f_equal (@length Z)) in Hn.
    rewrite length_rev, length_app in Hn. destruct (text s); [congruence|simpl in Hn; lia]. }
  destruct (append_disturbance_ok _ _ _ _ Ht3 Hd1 Hm E4)
    as [D2 [HD2 [Hl2 [Hc2 [Hr2 [Hd2 Hs2]]]]]]. clear E4.
  apply bind_inr in H; destruct H as [t [s5 [E5 H]]].
  unfold get_text in E5. inversion E5; subst t s5. clear E5.
  apply bind_inr in H; destruct H as [[] [s6 [E6 H]]].
  unfold set_text in E6. inversion E6; subst s6. clear E6.
  unfold ret in H. inversion H; subst s'. clear H.
  simpl in *. exists D1, D2.
  rewrite HD2, HD1, rev_app_distr, rev_involutive.
  split; [reflexivity|]. split; [exact Hl1|]. split; [exact Hl2|].
  split; [exact Hc1|].
  split; [rewrite HD1, last_rev_hd in Hc2; destruct (text s); [congruence|exact Hc2]|].
  split; [exact Hr1|]. split; [exact Hr2|]. congruence.
Qed.

Lemma in_range_In D l x : in_range D l -> In x l -> 0 <= x < D.
Proof. intros H Hx. unfold in_range in H. rewrite Forall_forall in H. auto. Qed.

Lemma in_range_weaken D m l :
  0 <= m < D -> Forall (fun v => 0 <= v <= m) l -> in_range D l.
Proof.
  intros Hm H. unfold in_range. eapply Forall_impl; [|exact H]. simpl. intros; lia.
Qed.

(** [_wide(1)] lays the payload [I] out as [rev E2 ++ [I0; I0; ...; In; In] ++ E1],
    each disturbance run differing from its neighbour at every step, in
    exactly [lenght] entries. *)
Lemma wide_ok c L s s' :
  let D := Z.of_nat (length (dictionary c)) in
  text s <> [] -> in_range D (text s) -> Forall unit_q (draws s) ->
  L > Z.of_nat (length (text s)) + 2 ->
  _wide c true L s = (inr tt, s') ->
  exists E1 E2,
    text s' = rev E2 ++ (hd 0 (text s) :: text s ++ [last (text s) 0]) ++ E1 /\
    chain (last (text s) 0) E1 /\ chain (hd 0 (text s)) E2 /\
    in_range D (text s') /\ Z.of_nat (length (text s')) = L /\
    signature s' = signature s.
Proof.
  intros D Ht Hr Hd HL H.
  assert (HD : 1 <= D) by (pose proof (in_range_In _ _ _ Hr (hd_In_ne _ 0 Ht)); lia).
  lazy beta iota zeta delta [_wide] in H.
  apply bind_inr in H; destruct H as [t [s1 [E1 H]]].
  unfold get_text in E1. inversion E1; subst t s1. clear E1.
  apply bind_inr in H; destruct H as [t0 [s2 [E2 H]]].
  apply lift_inr in E2. destruct E2 as [E2 ->].
  rewrite py_getitem_first in E2 by exact Ht. inversion E2; subst t0. clear E2.
  apply bind_inr in H; destruct H as [[] [s3 [E3 H]]].
  unfold set_text in E3. inversion E3; subst s3. clear E3.
  apply bind_inr in H; destruct H as [t [s4 [E4 H]]].
  unfold get_text in E4. inversion E4; subst t s4. clear E4.
  apply bind_inr in H; destruct H as [tl [s5 [E5 H]]].
  apply lift_inr in E5. destruct E5 as [E5 ->]. simpl text in E5.
  rewrite py_getitem_last in E5 by discriminate.
  rewrite last_cons_ne in E5 by exact Ht. inversion E5; subst tl. clear E5.
  apply bind_inr in H; destruct H as [[] [s6 [E6 H]]].
  unfold set_text in E6. inversion E6; subst s6. clear E6.
  apply bind_inr in H; destruct H as [t [s7 [E7 H]]].
  unfold get_text in E7. inversion E7; subst t s7. clear E7.
  apply bind_inr in H; destruct H as [q [s8 [E8 H]]].
  unfold random in E8. simpl in E8.
  destruct (draws s) as [|q' rs] eqn:Eds; [discriminate|].
  inversion E8; subst q' s8. clear E8.
  inversion Hd as [|? ? Hq Hrs]; subst.
  cbv beta zeta in H. simpl text in H.
  set (B := hd 0 (text s) :: text s ++ [last (text s) 0]) in *.
  assert (HlB : Z.of_nat (length B) = Z.of_nat (length (text s)) + 2)
    by (unfold B; simpl; rewrite length_app; simpl; lia).
  set (cadd := L - Z.of_nat (length B)) in *.
  pose proof (py_int_range q cadd Hq ltac:(unfold cadd; lia)) as Hcs.
  fold D in H.
  destruct (fill_two_ok _ _ (D - 1) (mk_st B (signature s) rs) s' ltac:(unfold B; simpl; discriminate)
              Hrs ltac:(lia) H)
    as [D1 [D2 [Htx [Hl1 [Hl2 [Hc1 [Hc2 [Hr1 [Hr2 Hs]]]]]]]]].
  cbn [text signature draws] in Htx, Hc1, Hc2, Hs. exists D1, D2.
  split; [exact Htx|].
  split; [unfold B in Hc1; rewrite last_cons_ne in Hc1 by (destruct (text s); discriminate);
          rewrite last_last in Hc1; exact Hc1|].
  split; [exact Hc2|].
  split.
  - rewrite Htx. unfold in_range. apply Forall_app; split; [apply Forall_rev|apply Forall_app; split].
    + apply (in_range_weaken D (Z.max 0 (D - 1 - 1))); [lia|exact Hr2].
    + unfold B. constructor; [apply (in_range_In _ _ _ Hr), hd_In_ne, Ht|].
      apply Forall_app; split; [exact Hr|].
      constructor; [apply (in_range_In _ _ _ Hr), last_In_ne, Ht|constructor].
    + apply (in_range_weaken D (Z.max 0 (D - 1 - 1))); [lia|exact Hr1].
  - split; [|exact Hs].
    rewrite Htx, !length_app, length_rev. unfold cadd in *. lia.
Qed.

(** ** Whole-method runs *)

Lemma encode_run h c T mode cs s I Y o :
  build_indices (dictionary c) T = Some I ->
  translate_list mode (Z.of_nat (length (dictionary c))) (secretkey c) I = Some Y ->
  render (dictionary c) Y = Some o ->
  encode h c T mode cs s =
    (inr o, mk_st Y (if cs then Some (h T) else signature s) (draws s)).
Proof.
  intros H1 H2 H3.
  cbv beta iota zeta delta [encode _build_input _translate _output _sign bind lift ret
                             get_text set_text set_signature].
  rewrite H1. cbn [text signature draws]. rewrite H2. cbn [text signature draws].
  destruct cs; cbn [text signature draws]; rewrite H3; reflexivity.
Qed.

Lemma wdecode_run c T s I P o :
  build_indices (dictionary c) T = Some I ->
  translate_list false (Z.of_nat (length (dictionary c))) (secretkey c) I = Some P ->
  render (dictionary c) (unwide P) = Some o ->
  wdecode c T s = (inr o, mk_st (unwide P) (signature s) (draws s)).
Proof.
  intros H1 H2 H3.
  cbv beta iota zeta delta [wdecode _build_input _translate _wide _output bind lift ret
                             get_text set_text].
  rewrite H1. cbn [text signature draws]. rewrite H2. cbn [text signature draws].
  rewrite H3. reflexivity.
Qed.

Lemma init_key c name key rs s0 :
  init name key rs = inr (c, s0) -> key <> [] ->
  DIZ name = Some (dictionary c) /\ secretkey c <> [] /\
  in_range (Z.of_nat (length (dictionary c))) (secretkey c).
Proof.
  intros H Hk. destruct (init_spec _ _ _ _ _ H) as [Hd [Hb _]].
  destruct (build_indices_spec _ _ _ Hb) as [Hr [Hl _]].
  split; [exact Hd|]. split; [|exact Hr].
  intros E. rewrite E in Hl. destruct key; [congruence|discriminate].
Qed.

(** C3: on an instance built by [__init__] from a registered alphabet and
    a non-empty key over it, for every text [T] over the alphabet (the
    empty one included) and any state, [encode(T)] returns a string [e]
    and [decode(e)] then returns [T]. *)
Theorem C3_decode_encode (name : string) (key : list Z) (rs0 : list Q) (c : cipher)
    (s_init : st) (h : list Z -> list Z) (T : list Z) (cs : bool) (s0 : st) :
  init name key rs0 = inr (c, s_init) -> key <> [] ->
  Forall (fun ch => In ch (dictionary c)) T ->
  match encode h c T true cs s0 with
  | (inr e, s1) => fst (decode h c e s1) = inr T
  | (inl _, _) => False
  end.
Proof.
  intros Hi Hk HT.
  destruct (init_key _ _ _ _ _ Hi Hk) as [Hd [HK HKr]].
  set (D := Z.of_nat (length (dictionary c))) in *.
  destruct (build_indices_In _ _ HT) as [I HI].
  destruct (build_indices_spec _ _ _ HI) as [HIr [_ HIT]].
  destruct (translate_list_range true D _ I HK HKr HIr) as [Y [HY [_ HYr]]].
  destruct (render_build _ Y (DIZ_index_inverse _ _ Hd) HYr) as [e [He [_ Hb]]].
  rewrite (encode_run h c T true cs s0 I Y e HI HY He).
  destruct (translate_roundtrip D _ I Y HK HKr HIr HY) as [HYI _].
  unfold decode. rewrite (encode_run h c e false false _ Y I T Hb HYI HIT).
  reflexivity.
Qed.

Lemma C3_decode_encode_witness :
  (init "num" (str "137") [] = inr (mk_cipher NUM [1; 3; 7], mk_st [] None []) /\
   str "137" <> [] /\ Forall (fun ch => In ch NUM) (str "582")) /\
  match encode (fun x => x) (mk_cipher NUM [1; 3; 7]) (str "582") true true
          (mk_st [] None []) with
  | (inr e, s1) => fst (decode (fun x => x) (mk_cipher NUM [1; 3; 7]) e s1) = inr (str "582")
  | (inl _, _) => False
  end.
Proof.
  assert (H1 : init "num" (str "137") [] = inr (mk_cipher NUM [1; 3; 7], mk_st [] None []))
    by reflexivity.
  assert (H2 : str "137" <> []) by discriminate.
  assert (H3 : Forall (fun ch => In ch NUM) (str "582"))
    by (repeat (apply Forall_cons; [cbn; tauto|]); apply Forall_nil).
  split; [split; [exact H1|split; assumption]|].
  exact (C3_decode_encode "num" (str "137") [] (mk_cipher NUM [1; 3; 7])
           (mk_st [] None []) (fun x => x) (str "582") true (mk_st [] None []) H1 H2 H3).
Defined.

(** C1: on an instance built by [__init__] from a registered alphabet and
    a non-empty key, for every text [T] over the alphabet, every [L] with
    [L > len(T) + 2] and every outcome of the [random()] draws (values in
    [[0, 1)]) for which [wencode(T, L)] returns a string [e], [e] has
    exactly [L] characters and [wdecode(e)] returns [T]. *)
Theorem C1_padded_roundtrip (name : string) (key : list Z) (rs0 : list Q) (c : cipher)
    (s_init : st) (h : list Z -> list Z) (T : list Z) (L : Z) (cs : bool)
    (s0 s1 : st) (e : list Z) :
  init name key rs0 = inr (c, s_init) -> key <> [] ->
  Forall (fun ch => In ch (dictionary c)) T ->
  L > Z.of_nat (length T) + 2 ->
  Forall unit_q (draws s0) ->
  wencode h c T L cs s0 = (inr e, s1) ->
  fst (wdecode c e s1) = inr T /\ Z.of_nat (length e) = L.
Proof.
  intros Hi Hk HT HL Hd H.
  destruct (init_key _ _ _ _ _ Hi Hk) as [Hdz [HK HKr]].
  set (D := Z.of_nat (length (dictionary c))) in *.
  unfold wencode in H. replace (L >? Z.of_nat (length T) + 2) with true in H by lia.
  apply bind_inr in H; destruct H as [I [s2 [E2 H]]].
  unfold _build_input in E2. apply lift_inr in E2. destruct E2 as [HI ->].
  destruct (build_indices_spec _ _ _ HI) as [HIr [HIl HIT]].
  apply bind_inr in H; destruct H as [[] [s3 [E3 H]]].
  unfold set_text in E3. inversion E3; subst s3. clear E3.
  apply bind_inr in H; destruct H as [[] [s4 [E4 H]]].
  assert (HIne : I <> []).
  { intros ->. cbv beta iota zeta delta [_wide bind get_text lift raise py_getitem] in E4.
    simpl in E4. discriminate. }
  destruct (wide_ok c L (mk_st I (signature s0) (draws s0)) s4 HIne HIr Hd
              ltac:(simpl; lia) E4) as [E1 [E2 [HP [Hc1 [Hc2 [HPr [HPl _]]]]]]].
  clear E4. cbn [text] in HP, Hc1, Hc2.
  apply bind_inr in H; destruct H as [[] [s5 [E5 H]]].
  unfold _translate in E5.
  apply bind_inr in E5; destruct E5 as [P [s6 [E6 E5]]].
  unfold get_text in E6. inversion E6; subst P s6. clear E6.
  apply bind_inr in E5; destruct E5 as [Y [s7 [E7 E5]]].
  apply lift_inr in E7. destruct E7 as [HY ->]. fold D in HY.
  unfold set_text in E5. inversion E5; subst s5. clear E5.
  destruct (translate_roundtrip D _ _ Y HK HKr HPr HY) as [HYP [HYr HYl]].
  apply bind_inr in H; destruct H as [[] [s8 [E8 H]]].
  assert (Ht8 : text s8 = Y) by (destruct cs; inversion E8; reflexivity).
  clear E8.
  unfold _output in H.
  apply bind_inr in H; destruct H as [t [s9 [E9 H]]].
  unfold get_text in E9. inversion E9; subst t s9. clear E9.
  apply lift_inr in H. destruct H as [He ->]. rewrite Ht8 in He.
  destruct (render_build _ Y (DIZ_index_inverse _ _ Hdz) HYr) as [e' [He' [Hel Hb]]].
  rewrite He in He'. inversion He'; subst e'. clear He'.
  split.
  - rewrite (wdecode_run c e s8 Y (text s4) T Hb HYP).
    + reflexivity.
    + rewrite HP. rewrite unwide_layout by assumption. exact HIT.
  - rewrite Hel, HYl. exact HPl.
Qed.

Lemma C1_padded_roundtrip_witness :
  let c := mk_cipher NUM [1; 3; 7] in
  let rs := [1 # 2; 3 # 10; 7 # 10; 1 # 10; 9 # 10; 5 # 10; 2 # 10; 4 # 10; 6 # 10;
             8 # 10; 1 # 3; 2 # 3; 1 # 7] in
  let s1 := mk_st [5; 1; 7; 6; 8; 5; 9; 5; 3] None
              [2 # 10; 4 # 10; 6 # 10; 8 # 10; 1 # 3; 2 # 3; 1 # 7] in
  (init "num" (str "137") [] = inr (c, mk_st [] None []) /\ str "137" <> [] /\
   Forall (fun ch => In ch (dictionary c)) (str "58") /\
   9 > Z.of_nat (length (str "58")) + 2 /\ Forall unit_q rs /\
   wencode (fun x => x) c (str "58") 9 false (mk_st [] None rs) =
     (inr (str "517685953"), s1)) /\
  (fst (wdecode c (str "517685953") s1) = inr (str "58") /\
   Z.of_nat (length (str "517685953")) = 9).
Proof.
  intros c rs s1.
  assert (H1 : init "num" (str "137") [] = inr (c, mk_st [] None [])) by reflexivity.
  assert (H2 : str "137" <> []) by discriminate.
  assert (H3 : Forall (fun ch => In ch (dictionary c)) (str "58"))
    by (repeat (apply Forall_cons; [cbn; tauto|]); apply Forall_nil).
  assert (H4 : 9 > Z.of_nat (length (str "58")) + 2) by (simpl; lia).
  assert (H5 : Forall unit_q rs)
    by (repeat constructor; unfold Qle, Qlt; simpl; lia).
  assert (H6 : wencode (fun x => x) c (str "58") 9 false (mk_st [] None rs) =
                 (inr (str "517685953"), s1)) by reflexivity.
  split; [repeat split; assumption|].
  exact (C1_padded_roundtrip "num" (str "137") [] c (mk_st [] None []) (fun x => x)
           (str "58") 9 false (mk_st [] None rs) s1 (str "517685953") H1 H2 H3 H4 H5 H6).
Defined.

(** ** Fail-soft decoding *)

(** Some pass of [_wide(0)] finds no adjacent equal pair. *)
Definition scan_fails (P : list Z) : Prop :=
  unwide_pass P = None \/
  exists P1, unwide_pass P = Some P1 /\ unwide_pass P1 = None.

Lemma unwide_pass_range D t t' :
  in_range D t -> unwide_pass t = Some t' -> in_range D t'.
Proof.
  unfold unwide_pass. intros Hr H.
  destruct (find_pair t) as [x|]; [|discriminate]. inversion H; subst.
  unfold in_range in *. apply Forall_rev.
  rewrite <- (firstn_skipn (x + 1) t) in Hr. apply Forall_app in Hr. apply Hr.
Qed.

Lemma unwide_pass_nonempty t t' : unwide_pass t = Some t' -> t' <> [].
Proof.
  unfold unwide_pass. intros H.
  destruct (find_pair t) as [x|] eqn:E; [|discriminate]. inversion H; subst.
  destruct (find_pair_spec _ _ E) as [Hlt _].
  intros Hn. apply (f_equal (@length Z)) in Hn. rewrite length_rev, length_skipn in Hn.
  simpl in Hn. lia.
Qed.

Lemma unwide_range D t : in_range D t -> in_range D (unwide t).
Proof.
  intros Hr. unfold unwide. cbn [unwide_loop].
  destruct (unwide_pass t) as [t1|] eqn:E1; [|constructor].
  pose proof (unwide_pass_range _ _ _ Hr E1) as Hr1.
  destruct (unwide_pass t1) as [t2|] eqn:E2; [|constructor].
  exact (unwide_pass_range _ _ _ Hr1 E2).
Qed.

Lemma unwide_empty_iff t : unwide t = [] <-> scan_fails t.
Proof.
  unfold unwide, scan_fails. cbn [unwide_loop].
  destruct (unwide_pass t) as [t1|] eqn:E1.
  - destruct (unwide_pass t1) as [t2|] eqn:E2.
    + simpl. split.
      * intros H. exfalso. exact (unwide_pass_nonempty _ _ E2 H).
      * intros [H|[P1 [H1 H2]]]; [discriminate|]. inversion H1; subst. congruence.
    + split; [intros _; right; eauto|reflexivity].
  - split; [intros _; left; reflexivity|reflexivity].
Qed.

(** C6 as stated is false: [wdecode] raises [ValueError] on a character
    outside the alphabet ("a" on [num]), and a ciphertext of [wencode] under
    the key "137" decodes under the wrong key "06" to the non-empty
    string "570899". *)
Lemma C6_counterexample :
  let rs := [1 # 2; 3 # 10; 7 # 10; 1 # 10; 9 # 10; 5 # 10; 2 # 10; 4 # 10; 6 # 10;
             8 # 10; 1 # 3; 2 # 3; 1 # 7] in
  let s1 := mk_st [5; 1; 7; 6; 8; 5; 9; 5; 3] None
              [2 # 10; 4 # 10; 6 # 10; 8 # 10; 1 # 3; 2 # 3; 1 # 7] in
  init "num" (str "137") [] = inr (mk_cipher NUM [1; 3; 7], mk_st [] None []) /\
  init "num" (str "06") [] = inr (mk_cipher NUM [0; 6], mk_st [] None []) /\
  fst (wdecode (mk_cipher NUM [1; 3; 7]) (str "a") (mk_st [] None [])) = inl ValueError /\
  wencode (fun x => x) (mk_cipher NUM [1; 3; 7]) (str "58") 9 false (mk_st [] None rs) =
    (inr (str "517685953"), s1) /\
  fst (wdecode (mk_cipher NUM [0; 6]) (str "517685953") s1) = inr (str "570899").
Proof. split; [|split; [|split; [|split]]]; vm_compute; reflexivity. Qed.

(** C6 (as the code does it): on an instance with a non-empty key, for
    every input whose characters all lie in the alphabet, [wdecode] does
    not raise: it returns a string, which is empty exactly when a scan pass
    of [_wide(0)] finds no adjacent equal pair. *)
Theorem C6_wdecode_fail_soft (c : cipher) (T : list Z) (s0 : st) :
  let D := Z.of_nat (length (dictionary c)) in
  secretkey c <> [] -> in_range D (secretkey c) ->
  Forall (fun ch => In ch (dictionary c)) T ->
  exists I P o,
    build_indices (dictionary c) T = Some I /\
    translate_list false D (secretkey c) I = Some P /\
    fst (wdecode c T s0) = inr o /\
    (o = [] <-> scan_fails P).
Proof.
  intros D HK HKr HT.
  destruct (build_indices_In _ _ HT) as [I HI].
  destruct (build_indices_spec _ _ _ HI) as [HIr _].
  destruct (translate_list_range false D _ I HK HKr HIr) as [P [HP [_ HPr]]].
  destruct (render_ok (dictionary c) (unwide P) (unwide_range _ _ HPr)) as [o [Ho Hl]].
  exists I, P, o. split; [exact HI|]. split; [exact HP|].
  split; [rewrite (wdecode_run c T s0 I P o HI HP Ho); reflexivity|].
  rewrite <- unwide_empty_iff. split; intros H.
  - subst o. destruct (unwide P); [reflexivity|discriminate].
  - rewrite H in Hl. destruct o; [reflexivity|discriminate].
Qed.

Lemma C6_wdecode_fail_soft_witness :
  let c := mk_cipher NUM [0; 6] in
  ([0; 6] <> [] /\ in_range 10 [0; 6] /\
   Forall (fun ch => In ch NUM) (str "517685953")) /\
  exists I P o,
    build_indices (dictionary c) (str "517685953") = Some I /\
    translate_list false (Z.of_nat (length (dictionary c))) (secretkey c) I = Some P /\
    fst (wdecode c (str "517685953") (mk_st [] None [])) = inr o /\
    (o = [] <-> scan_fails P).
Proof.
  intros c.
  assert (H1 : [0; 6] <> []) by discriminate.
  assert (H2 : in_range 10 [0; 6]) by (repeat constructor; lia).
  assert (H3 : Forall (fun ch => In ch NUM) (str "517685953"))
    by (repeat (apply Forall_cons; [cbn; tauto|]); apply Forall_nil).
  split; [split; [exact H1|split; assumption]|].
  exact (C6_wdecode_fail_soft c (str "517685953") (mk_st [] None []) H1 H2 H3).
Defined.

(** * Further properties of the class *)

(** ** Helpers *)
Lemma mod_mod_mul (i n m : nat) : n <> O -> ((i mod (n * m)) mod n = i mod n)%nat.
Proof.
  intros Hn. rewrite Nat.Div0.mod_mul_r. rewrite Nat.mul_comm.
  rewrite Nat.Div0.mod_add. apply Nat.Div0.mod_mod.
Qed.

Lemma concat_repeat_nil m : concat (repeat (@nil Z) m) = [].
Proof. induction m; simpl; auto. Qed.

Lemma translate_list_key_repeat mode D K m t :
  (0 < m)%nat ->
  translate_list mode D (concat (repeat K m)) t = translate_list mode D K t.
Proof.
  intros Hm. destruct K as [|k K'] eqn:EK.
  - rewrite concat_repeat_nil. reflexivity.
  - rewrite <- EK. assert (HK : K <> []) by (subst; discriminate).
    assert (HKm : concat (repeat K m) <> []).
    { destruct m as [|m]; [lia|]. simpl. destruct K; [congruence|discriminate]. }
    assert (Hn : length K <> O) by (destruct K; simpl; congruence).
    destruct (translate_list_ok mode D _ t HKm) as [o1 [H1 [L1 N1]]].
    destruct (translate_list_ok mode D _ t HK) as [o2 [H2 [L2 N2]]].
    rewrite H1, H2. f_equal. apply nth_ext with (d := 0) (d' := 0); [lia|].
    intros i Hi. rewrite N1, N2 by lia.
    rewrite concat_repeat_length.
    rewrite concat_repeat_nth by (rewrite Nat.mul_comm; apply Nat.mod_upper_bound; lia).
    rewrite mod_mod_mul by exact Hn. reflexivity.
Qed.

Lemma encode_key_repeat h d K m T mode cs s :
  (0 < m)%nat ->
  encode h (mk_cipher d (concat (repeat K m))) T mode cs s = encode h (mk_cipher d K) T mode cs s.
Proof.
  intros Hm.
  cbv beta iota zeta delta [encode _build_input _translate _output _sign bind lift ret
                             get_text set_text set_signature].
  cbn [dictionary secretkey].
  destruct (build_indices d T); [|reflexivity]. cbn [text signature draws].
  rewrite translate_list_key_repeat by exact Hm. reflexivity.
Qed.

Lemma wdecode_key_repeat d K m T s :
  (0 < m)%nat ->
  wdecode (mk_cipher d (concat (repeat K m))) T s = wdecode (mk_cipher d K) T s.
Proof.
  intros Hm.
  cbv beta iota zeta delta [wdecode _build_input _translate _wide _output bind lift ret
                             get_text set_text].
  cbn [dictionary secretkey].
  destruct (build_indices d T); [|reflexivity]. cbn [text signature draws].
  rewrite translate_list_key_repeat by exact Hm. reflexivity.
Qed.

Lemma wencode_key_repeat h d K m T L cs s :
  (0 < m)%nat ->
  wencode h (mk_cipher d (concat (repeat K m))) T L cs s = wencode h (mk_cipher d K) T L cs s.
Proof.
  intros Hm. unfold wencode. destruct (L >? _); [|reflexivity].
  cbv beta iota zeta delta [_build_input _translate _output _sign bind lift ret
                             get_text set_text set_signature].
  cbn [dictionary secretkey].
  destruct (build_indices d T); [|reflexivity]. cbn [text signature draws].
  assert (Hw : _wide (mk_cipher d (concat (repeat K m))) true L = _wide (mk_cipher d K) true L)
    by reflexivity.
  rewrite Hw. destruct (_wide (mk_cipher d K) true L _) as [[e|[]] s']; [reflexivity|].
  cbn [text signature draws].
  rewrite translate_list_key_repeat by exact Hm. reflexivity.
Qed.


Lemma py_getitem_In l i ch : py_getitem l i = Some ch -> In ch l.
Proof.
  unfold py_getitem. intros H.
  destruct ((0 <=? i) && (i <? Z.of_nat (length l))) eqn:E1.
  - apply andb_prop in E1. destruct E1 as [E1 E2]. apply Z.leb_le in E1. apply Z.ltb_lt in E2.
    inversion H; subst. apply nth_In. lia.
  - destruct ((- Z.of_nat (length l) <=? i) && (i <? 0)) eqn:E2; [|discriminate].
    apply andb_prop in E2. destruct E2 as [E2 E3]. apply Z.leb_le in E2. apply Z.ltb_lt in E3.
    inversion H; subst. apply nth_In. lia.
Qed.

Lemma render_In f t o : render f t = Some o -> Forall (fun ch => In ch f) o.
Proof.
  revert o; induction t as [|x t IH]; intros o H; simpl in H.
  - inversion H; constructor.
  - destruct (py_getitem f x) as [ch|] eqn:E; [|discriminate].
    destruct (render f t) as [o'|] eqn:E'; simpl in H; [|discriminate].
    inversion H; subst. constructor; [exact (py_getitem_In _ _ _ E)|exact (IH _ eq_refl)].
Qed.

Lemma render_length f t o : render f t = Some o -> length o = length t.
Proof.
  revert o; induction t as [|x t IH]; intros o H; simpl in H.
  - inversion H; reflexivity.
  - destruct (py_getitem f x); [|discriminate].
    destruct (render f t) as [o'|] eqn:E'; simpl in H; [|discriminate].
    inversion H; subst. simpl. f_equal. exact (IH _ eq_refl).
Qed.

Lemma render_firstn f t o n : render f t = Some o -> render f (firstn n t) = Some (firstn n o).
Proof.
  revert o n; induction t as [|x t IH]; intros o n H; simpl in H.
  - inversion H; subst. rewrite !firstn_nil. reflexivity.
  - destruct (py_getitem f x) as [ch|] eqn:E; [|discriminate].
    destruct (render f t) as [o'|] eqn:E'; simpl in H; [|discriminate].
    inversion H; subst. destruct n as [|n]; [reflexivity|].
    simpl. rewrite E, (IH o' n eq_refl). reflexivity.
Qed.

Lemma build_indices_Forall d T I :
  build_indices d T = Some I -> Forall (fun ch => In ch d) T.
Proof.
  intros H. destruct (build_indices_spec _ _ _ H) as [_ [_ Hr]]. exact (render_In _ _ _ Hr).
Qed.

Lemma build_indices_prefix d T1 T2 I :
  build_indices d (T1 ++ T2) = Some I -> build_indices d T1 = Some (firstn (length T1) I).
Proof.
  revert I; induction T1 as [|ch T1 IH]; intros I H; [reflexivity|].
  simpl in H |- *. destruct (py_index d ch) as [i|]; [|discriminate].
  destruct (build_indices d (T1 ++ T2)) as [I'|]; simpl in H; [|discriminate].
  inversion H; subst. simpl. rewrite (IH I' eq_refl). reflexivity.
Qed.

Lemma translate_list_key mode D K t out : translate_list mode D K t = Some out -> K <> [].
Proof. unfold translate_list. intros H ->. discriminate. Qed.

Lemma translate_list_length mode D K t out :
  translate_list mode D K t = Some out -> length out = length t.
Proof.
  intros H. destruct (translate_list_ok mode D K t (translate_list_key _ _ _ _ _ H))
    as [o [Ho [Hl _]]]. rewrite H in Ho. inversion Ho; subst. exact Hl.
Qed.

Lemma encode_inv h c T mode cs s o s' :
  encode h c T mode cs s = (inr o, s') ->
  exists I Y, build_indices (dictionary c) T = Some I /\
    translate_list mode (Z.of_nat (length (dictionary c))) (secretkey c) I = Some Y /\
    render (dictionary c) Y = Some o.
Proof.
  cbv beta iota zeta delta [encode _build_input _translate _output _sign bind lift ret raise
                             get_text set_text set_signature].
  destruct (build_indices (dictionary c) T) as [I|] eqn:EI; [|discriminate].
  cbn [text signature draws].
  destruct (translate_list _ _ _ I) as [Y|] eqn:EY; [|discriminate].
  intros H. exists I, Y. split; [reflexivity|]. split; [exact EY|].
  destruct cs; cbn [text signature draws] in H;
    destruct (render (dictionary c) Y); inversion H; reflexivity.
Qed.

Lemma wdecode_inv c T s o s' :
  wdecode c T s = (inr o, s') ->
  exists I P, build_indices (dictionary c) T = Some I /\
    translate_list false (Z.of_nat (length (dictionary c))) (secretkey c) I = Some P /\
    render (dictionary c) (unwide P) = Some o.
Proof.
  cbv beta iota zeta delta [wdecode _build_input _translate _wide _output bind lift ret raise
                             get_text set_text].
  destruct (build_indices (dictionary c) T) as [I|] eqn:EI; [|discriminate].
  cbn [text signature draws].
  destruct (translate_list _ _ _ I) as [P|] eqn:EP; [|discriminate].
  cbn [text signature draws]. intros H. exists I, P. split; [reflexivity|]. split; [exact EP|].
  destruct (render (dictionary c) (unwide P)); inversion H; auto.
Qed.

Lemma translate_roundtrip_bw D K X Y :
  K <> [] -> in_range D K -> in_range D X ->
  translate_list false D K X = Some Y ->
  translate_list true D K Y = Some X /\ in_range D Y.
Proof.
  intros HK HKr HX HY.
  destruct (translate_bw_mod D K X HK HKr HX) as [Y' [HY' [Hl Hn]]].
  rewrite HY in HY'. inversion HY'; subst Y'. clear HY'.
  destruct (translate_list_range false D K X HK HKr HX) as [Y' [HY' [_ Hr]]].
  rewrite HY in HY'. inversion HY'; subst Y'. clear HY'.
  destruct (translate_fw_mod D K Y HK HKr Hr) as [Z' [HZ [Hl' Hn']]].
  rewrite HZ. split; [|exact Hr]. f_equal.
  apply nth_ext with (d := 0) (d' := 0); [lia|].
  intros i Hi. rewrite Hn' by lia. rewrite Hn by lia.
  rewrite Zplus_mod_idemp_l. replace (nth i X 0 - nth (i mod length K) K 0 +
    nth (i mod length K) K 0) with (nth i X 0) by ring.
  apply Z.mod_small. apply in_range_nth; [exact HX|lia].
Qed.

Lemma unwide_pass_length t t' :
  unwide_pass t = Some t' -> (length t' + 1 <= length t)%nat.
Proof.
  unfold unwide_pass. intros H.
  destruct (find_pair t) as [x|] eqn:E; [|discriminate]. inversion H; subst.
  destruct (find_pair_spec _ _ E) as [Hlt _].
  rewrite length_rev, length_skipn. lia.
Qed.

Lemma unwide_length t : unwide t = [] \/ (length (unwide t) + 2 <= length t)%nat.
Proof.
  unfold unwide. cbn [unwide_loop].
  destruct (unwide_pass t) as [t1|] eqn:E1; [|left; reflexivity].
  destruct (unwide_pass t1) as [t2|] eqn:E2; [|left; reflexivity].
  right. pose proof (unwide_pass_length _ _ E1). pose proof (unwide_pass_length _ _ E2). lia.
Qed.


Lemma padded_run (name : string) (key : list Z) (rs0 : list Q) (c : cipher)
    (s_init : st) (h : list Z -> list Z) (T : list Z) (L : Z) (cs : bool)
    (s0 s1 : st) (e : list Z) :
  init name key rs0 = inr (c, s_init) -> key <> [] ->
  Forall (fun ch => In ch (dictionary c)) T ->
  L > Z.of_nat (length T) + 2 ->
  Forall unit_q (draws s0) ->
  wencode h c T L cs s0 = (inr e, s1) ->
  exists I, wdecode c e s1 = (inr T, mk_st I (signature s1) (draws s1)) /\
    render (dictionary c) I = Some T /\
    Z.of_nat (length e) = L /\ Forall (fun ch => In ch (dictionary c)) e /\
    signature s1 = (if cs then Some (h T) else signature s0).
Proof.
  intros Hi Hk HT HL Hd H.
  destruct (init_key _ _ _ _ _ Hi Hk) as [Hdz [HK HKr]].
  set (D := Z.of_nat (length (dictionary c))) in *.
  unfold wencode in H. replace (L >? Z.of_nat (length T) + 2) with true in H by lia.
  apply bind_inr in H; destruct H as [I [s2 [E2 H]]].
  unfold _build_input in E2. apply lift_inr in E2. destruct E2 as [HI ->].
  destruct (build_indices_spec _ _ _ HI) as [HIr [HIl HIT]].
  apply bind_inr in H; destruct H as [[] [s3 [E3 H]]].
  unfold set_text in E3. inversion E3; subst s3. clear E3.
  apply bind_inr in H; destruct H as [[] [s4 [E4 H]]].
  assert (HIne : I <> []).
  { intros ->. cbv beta iota zeta delta [_wide bind get_text lift raise py_getitem] in E4.
    simpl in E4. discriminate. }
  destruct (wide_ok c L (mk_st I (signature s0) (draws s0)) s4 HIne HIr Hd
              ltac:(simpl; lia) E4) as [E1 [E2 [HP [Hc1 [Hc2 [HPr [HPl Hs4]]]]]]].
  clear E4. cbn [text signature] in HP, Hc1, Hc2, Hs4.
  apply bind_inr in H; destruct H as [[] [s5 [E5 H]]].
  unfold _translate in E5.
  apply bind_inr in E5; destruct E5 as [P [s6 [E6 E5]]].
  unfold get_text in E6. inversion E6; subst P s6. clear E6.
  apply bind_inr in E5; destruct E5 as [Y [s7 [E7 E5]]].
  apply lift_inr in E7. destruct E7 as [HY ->]. fold D in HY.
  unfold set_text in E5. inversion E5; subst s5. clear E5.
  destruct (translate_roundtrip D _ _ Y HK HKr HPr HY) as [HYP [HYr HYl]].
  apply bind_inr in H; destruct H as [[] [s8 [E8 H]]].
  assert (Ht8 : text s8 = Y /\ signature s8 = (if cs then Some (h T) else signature s0))
    by (destruct cs; inversion E8; cbn [text signature]; auto).
  destruct Ht8 as [Ht8 Hs8]. clear E8.
  unfold _output in H.
  apply bind_inr in H; destruct H as [t [s9 [E9 H]]].
  unfold get_text in E9. inversion E9; subst t s9. clear E9.
  apply lift_inr in H. destruct H as [He ->]. rewrite Ht8 in He.
  destruct (render_build _ Y (DIZ_index_inverse _ _ Hdz) HYr) as [e' [He' [Hel Hb]]].
  rewrite He in He'. inversion He'; subst e'. clear He'.
  assert (Hu : unwide (text s4) = I) by (rewrite HP; apply unwide_layout; assumption).
  exists I. split; [|split; [exact HIT|split; [|split]]].
  - rewrite <- Hu. apply (wdecode_run c e s8 Y (text s4) T Hb HYP). rewrite Hu. exact HIT.
  - rewrite Hel, HYl. exact HPl.
  - exact (render_In _ _ _ He).
  - exact Hs8.
Qed.

(** The module's self test for [wencode]: after [wencode(T, L,
    create_signature=True)] returns [e], [self.signature] is the digest of
    [T]; then [wdecode(e)] returns [T], and [verify(g)] returns [True]
    exactly when [g] is that digest. *)
Theorem verify_after_wdecode (name : string) (key : list Z) (rs0 : list Q) (c : cipher)
    (s_init : st) (h : list Z -> list Z) (T : list Z) (L : Z)
    (s0 s1 : st) (e : list Z) :
  init name key rs0 = inr (c, s_init) -> key <> [] ->
  Forall (fun ch => In ch (dictionary c)) T ->
  L > Z.of_nat (length T) + 2 ->
  Forall unit_q (draws s0) ->
  wencode h c T L true s0 = (inr e, s1) ->
  signature s1 = Some (h T) /\
  exists s2, wdecode c e s1 = (inr T, s2) /\ signature s2 = Some (h T) /\
    forall g, fst (verify h c g s2) = inr true <-> g = h T.
Proof.
  intros Hi Hk HT HL Hd H.
  destruct (padded_run _ _ _ _ _ h _ _ true _ _ _ Hi Hk HT HL Hd H)
    as [I [Hw [HIT [_ [_ Hs]]]]].
  split; [exact Hs|]. eexists. split; [exact Hw|]. split; [exact Hs|].
  intros g. unfold verify, _output, _sign, bind, get_text, lift. cbn [text].
  rewrite HIT. unfold ret. simpl.
  destruct (list_eq_dec Z.eq_dec g (h T)); split; congruence.
Qed.

(** Every character of the string [wencode(T, L)] returns lies in the
    alphabet. *)
Theorem wencode_over_alphabet (name : string) (key : list Z) (rs0 : list Q) (c : cipher)
    (s_init : st) (h : list Z -> list Z) (T : list Z) (L : Z) (cs : bool)
    (s0 s1 : st) (e : list Z) :
  init name key rs0 = inr (c, s_init) -> key <> [] ->
  Forall (fun ch => In ch (dictionary c)) T ->
  L > Z.of_nat (length T) + 2 ->
  Forall unit_q (draws s0) ->
  wencode h c T L cs s0 = (inr e, s1) ->
  Forall (fun ch => In ch (dictionary c)) e.
Proof.
  intros Hi Hk HT HL Hd H.
  destruct (padded_run _ _ _ _ _ h _ _ cs _ _ _ Hi Hk HT HL Hd H) as [I [_ [_ [_ [He _]]]]].
  exact He.
Qed.

Lemma token_chars_ok d k rb :
  in_range (Z.of_nat (length d)) rb -> (k <= length rb)%nat ->
  exists t, token_chars d k rb = inr t /\ length t = k /\ Forall (fun ch => In ch d) t.
Proof.
  revert rb; induction k as [|k IH]; intros rb Hr Hk; simpl; [eauto|].
  destruct rb as [|r rb]; simpl in Hk; [lia|].
  inversion Hr as [|? ? Hx Hrb]; subst.
  rewrite py_getitem_in by exact Hx.
  destruct (IH rb Hrb ltac:(lia)) as [t [Ht [Hl Hin]]]. rewrite Ht.
  eexists; split; [reflexivity|]. split; [simpl; lia|].
  constructor; [apply nth_In; lia|exact Hin].
Qed.

Lemma init_ok name d key rs :
  DIZ name = Some d -> Forall (fun ch => In ch d) key ->
  exists k, init name key rs = inr (mk_cipher d k, mk_st [] None rs) /\
            length k = length key /\ in_range (Z.of_nat (length d)) k.
Proof.
  intros Hd Hk. destruct (build_indices_In _ _ Hk) as [k Hb].
  destruct (build_indices_spec _ _ _ Hb) as [Hr [Hl _]].
  exists k. unfold init. rewrite Hd, Hb. auto.
Qed.

(** [token(name, length)] on a registered alphabet, with [randbelow(n)]
    values in [[0, n)], returns a string of [max(length, 0)] characters of
    the alphabet, and [__init__(name, token)] accepts it as a key. *)
Theorem token_valid_key (name : string) (d : list Z) (len : Z) (rb : list Q) (rnd : list Z) :
  DIZ name = Some d ->
  in_range (Z.of_nat (length d)) rnd -> (Z.to_nat len <= length rnd)%nat ->
  exists t, token name len rnd = inr t /\ length t = Z.to_nat len /\
    Forall (fun ch => In ch d) t /\
    exists k, init name t rb = inr (mk_cipher d k, mk_st [] None rb).
Proof.
  intros Hd Hr Hl. destruct (token_chars_ok d (Z.to_nat len) rnd Hr Hl) as [t [Ht [Htl Hin]]].
  exists t. unfold token. rewrite Hd. split; [exact Ht|]. split; [exact Htl|].
  split; [exact Hin|]. destruct (init_ok name d t rb Hd Hin) as [k [Hk _]]. eauto.
Qed.

(** [__init__(name, key)] raises [KeyError] for an unregistered alphabet
    name, [ValueError] when a key character is not in the alphabet, and
    otherwise stores one index per key character, each in [[0, len(d))],
    with no text and no signature. *)
Theorem init_outcomes (name : string) (key : list Z) (rs : list Q) :
  (DIZ name = None -> init name key rs = inl KeyError) /\
  (forall d, DIZ name = Some d ->
     (Forall (fun ch => In ch d) key ->
        exists k, init name key rs = inr (mk_cipher d k, mk_st [] None rs) /\
          length k = length key /\ in_range (Z.of_nat (length d)) k) /\
     (~ Forall (fun ch => In ch d) key -> init name key rs = inl ValueError)).
Proof.
  split; [intros H; unfold init; rewrite H; reflexivity|].
  intros d Hd. split; [apply init_ok, Hd|].
  intros Hn. unfold init. rewrite Hd.
  destruct (build_indices d key) as [k|] eqn:Hb; [|reflexivity].
  exfalso. exact (Hn (build_indices_Forall _ _ _ Hb)).
Qed.

Lemma build_indices_None d T : ~ Forall (fun ch => In ch d) T -> build_indices d T = None.
Proof.
  intros Hn. destruct (build_indices d T) eqn:Hb; [|reflexivity].
  exfalso. exact (Hn (build_indices_Forall _ _ _ Hb)).
Qed.

(** A text with a character outside the alphabet makes [encode], [decode],
    [wdecode] and (past its length assertion) [wencode] raise [ValueError]
    before anything is changed: [self.text], [self.signature] and the
    random stream are as before. *)
Theorem foreign_char_value_error (h : list Z -> list Z) (c : cipher) (T : list Z)
    (mode cs : bool) (L : Z) (s : st) :
  ~ Forall (fun ch => In ch (dictionary c)) T ->
  encode h c T mode cs s = (inl ValueError, s) /\
  wdecode c T s = (inl ValueError, s) /\
  (L > Z.of_nat (length T) + 2 -> wencode h c T L cs s = (inl ValueError, s)).
Proof.
  intros Hn. pose proof (build_indices_None _ _ Hn) as Hb.
  split; [|split].
  - unfold encode, _build_input, bind. rewrite Hb. reflexivity.
  - unfold wdecode, _build_input, bind. rewrite Hb. reflexivity.
  - intros HL. unfold wencode. replace (L >? Z.of_nat (length T) + 2) with true by lia.
    unfold _build_input, bind. rewrite Hb. reflexivity.
Qed.


(** With a non-empty key over the alphabet, [encode] and [decode] of a text
    over the alphabet never raise, whatever the key: they return a string
    of the same length, over the alphabet. *)
Theorem encode_total (h : list Z -> list Z) (c : cipher) (T : list Z) (mode cs : bool) (s : st) :
  secretkey c <> [] -> in_range (Z.of_nat (length (dictionary c))) (secretkey c) ->
  Forall (fun ch => In ch (dictionary c)) T ->
  exists o, fst (encode h c T mode cs s) = inr o /\ length o = length T /\
    Forall (fun ch => In ch (dictionary c)) o.
Proof.
  intros HK HKr HT. destruct (build_indices_In _ _ HT) as [I HI].
  destruct (build_indices_spec _ _ _ HI) as [HIr [HIl _]].
  destruct (translate_list_range mode _ _ I HK HKr HIr) as [Y [HY [HYl HYr]]].
  destruct (render_ok (dictionary c) Y HYr) as [o [Ho Hol]].
  exists o. rewrite (encode_run h c T mode cs s I Y o HI HY Ho).
  split; [reflexivity|]. split; [lia|exact (render_In _ _ _ Ho)].
Qed.

(** The other round trip: on an instance built by [__init__] with a
    non-empty key, for every text [T] over the alphabet, [decode(T)]
    returns a string [e] and [encode(e)] returns [T]. *)
Theorem encode_decode (name : string) (key : list Z) (rs0 : list Q) (c : cipher)
    (s_init : st) (h : list Z -> list Z) (T : list Z) (s0 : st) :
  init name key rs0 = inr (c, s_init) -> key <> [] ->
  Forall (fun ch => In ch (dictionary c)) T ->
  match decode h c T s0 with
  | (inr e, s1) => fst (encode h c e true false s1) = inr T
  | (inl _, _) => False
  end.
Proof.
  intros Hi Hk HT.
  destruct (init_key _ _ _ _ _ Hi Hk) as [Hd [HK HKr]].
  set (D := Z.of_nat (length (dictionary c))) in *.
  destruct (build_indices_In _ _ HT) as [I HI].
  destruct (build_indices_spec _ _ _ HI) as [HIr [_ HIT]].
  destruct (translate_list_range false D _ I HK HKr HIr) as [Y [HY [_ HYr]]].
  destruct (render_build _ Y (DIZ_index_inverse _ _ Hd) HYr) as [e [He [_ Hb]]].
  unfold decode. rewrite (encode_run h c T false false s0 I Y e HI HY He).
  destruct (translate_roundtrip_bw D _ I Y HK HKr HIr HY) as [HYI _].
  rewrite (encode_run h c e true false _ Y I T Hb HYI HIT).
  reflexivity.
Qed.

(** A non-empty key made only of the alphabet's first character leaves
    the text unchanged: [encode(T)] and [decode(T)] return [T]. *)
Theorem weak_key_identity (h : list Z -> list Z) (c : cipher) (T : list Z) (mode cs : bool)
    (s : st) :
  secretkey c <> [] -> Forall (fun k => k = 0) (secretkey c) ->
  Forall (fun ch => In ch (dictionary c)) T ->
  fst (encode h c T mode cs s) = inr T.
Proof.
  intros HK H0 HT. destruct (build_indices_In _ _ HT) as [I HI].
  destruct (build_indices_spec _ _ _ HI) as [HIr [_ HIT]].
  set (D := Z.of_nat (length (dictionary c))) in *.
  destruct (translate_list_ok mode D _ I HK) as [Y [HY [HYl HYn]]].
  assert (HYI : Y = I).
  { apply nth_ext with (d := 0) (d' := 0); [exact HYl|]. intros i Hi.
    rewrite HYn by lia.
    assert (Hk0 : nth (i mod length (secretkey c)) (secretkey c) 0 = 0).
    { rewrite Forall_forall in H0. apply H0, nth_In, Nat.mod_upper_bound.
      destruct (secretkey c); simpl; congruence. }
    rewrite Hk0. pose proof (in_range_nth _ _ i HIr ltac:(lia)).
    destruct mode.
    - rewrite Z.add_0_r. destruct (Z.ltb_spec (nth i I 0) D); lia.
    - rewrite Z.sub_0_r. destruct (Z.gtb_spec (nth i I 0) (-1)); lia. }
  subst Y. rewrite (encode_run h c T mode cs s I I T HI HY HIT). reflexivity.
Qed.

(** A key and the same key repeated [m >= 1] times are interchangeable:
    [encode], [decode], [wencode] and [wdecode] give the same results and
    the same final state. *)
Theorem key_repetition (h : list Z -> list Z) (d K : list Z) (m : nat) (T : list Z)
    (mode cs : bool) (L : Z) (s : st) :
  (0 < m)%nat ->
  encode h (mk_cipher d (concat (repeat K m))) T mode cs s =
    encode h (mk_cipher d K) T mode cs s /\
  wencode h (mk_cipher d (concat (repeat K m))) T L cs s =
    wencode h (mk_cipher d K) T L cs s /\
  wdecode (mk_cipher d (concat (repeat K m))) T s = wdecode (mk_cipher d K) T s.
Proof.
  intros Hm. split; [|split].
  - apply encode_key_repeat, Hm.
  - apply wencode_key_repeat, Hm.
  - apply wdecode_key_repeat, Hm.
Qed.

(** [encode] works position by position: if [encode(T1 + T2)] returns
    [o], then [encode(T1)], from any state, returns the first [len(T1)]
    characters of [o]. *)
Theorem encode_prefix (h : list Z -> list Z) (c : cipher) (T1 T2 : list Z) (mode cs cs' : bool)
    (s s' : st) (o : list Z) :
  fst (encode h c (T1 ++ T2) mode cs s) = inr o ->
  fst (encode h c T1 mode cs' s') = inr (firstn (length T1) o).
Proof.
  intros H. destruct (encode h c (T1 ++ T2) mode cs s) as [r s1] eqn:E.
  simpl in H. subst r.
  destruct (encode_inv _ _ _ _ _ _ _ _ E) as [I [Y [HI [HY Ho]]]].
  pose proof (build_indices_prefix _ _ _ _ HI) as HI1.
  pose proof (translate_list_key _ _ _ _ _ HY) as HK.
  destruct (build_indices_spec _ _ _ HI) as [_ [HIl _]].
  rewrite length_app in HIl.
  destruct (translate_list_ok mode (Z.of_nat (length (dictionary c))) _ I HK)
    as [Y' [HY' [HYl HYn]]].
  rewrite HY in HY'. inversion HY'; subst Y'. clear HY'.
  destruct (translate_list_ok mode (Z.of_nat (length (dictionary c))) _
              (firstn (length T1) I) HK) as [Y1 [HY1 [HY1l HY1n]]].
  assert (HY1e : Y1 = firstn (length T1) Y).
  { rewrite length_firstn in HY1l.
    apply nth_ext with (d := 0) (d' := 0); [rewrite length_firstn; lia|].
    intros i Hi. rewrite HY1n by (rewrite length_firstn; lia).
    rewrite !nth_firstn. replace (i <? length T1)%nat with true by (symmetry; apply Nat.ltb_lt; lia).
    rewrite HYn by lia. reflexivity. }
  subst Y1.
  rewrite (encode_run h c T1 mode cs' s' _ _ _ HI1 HY1 (render_firstn _ _ _ _ Ho)).
  reflexivity.
Qed.

(** The string [wdecode(T)] returns is empty or at least two characters
    shorter than [T]. *)
Theorem wdecode_shrinks (c : cipher) (T : list Z) (s : st) (o : list Z) :
  fst (wdecode c T s) = inr o -> o = [] \/ (length o + 2 <= length T)%nat.
Proof.
  intros H. destruct (wdecode c T s) as [r s1] eqn:E. simpl in H. subst r.
  destruct (wdecode_inv _ _ _ _ _ E) as [I [P [HI [HP Ho]]]].
  destruct (build_indices_spec _ _ _ HI) as [_ [HIl _]].
  pose proof (translate_list_length _ _ _ _ _ HP) as HPl.
  pose proof (render_length _ _ _ Ho) as Hol.
  destruct (unwide_length P) as [Hu|Hu].
  - left. rewrite Hu in Hol. destruct o; [reflexivity|discriminate].
  - right. lia.
Qed.

(** The module's self test for [encode]: after [encode(T,
    create_signature=True)] returns [e], [self.signature] is the digest of
    [T]; then [decode(e)] returns [T], and [verify(g)] returns [True]
    exactly when [g] is that digest. *)
Theorem verify_after_decode (name : string) (key : list Z) (rs0 : list Q) (c : cipher)
    (s_init : st) (h : list Z -> list Z) (T : list Z) (s0 s1 : st) (e : list Z) :
  init name key rs0 = inr (c, s_init) -> key <> [] ->
  Forall (fun ch => In ch (dictionary c)) T ->
  encode h c T true true s0 = (inr e, s1) ->
  signature s1 = Some (h T) /\
  exists s2, decode h c e s1 = (inr T, s2) /\ signature s2 = Some (h T) /\
    forall g, fst (verify h c g s2) = inr true <-> g = h T.
Proof.
  intros Hi Hk HT Henc.
  destruct (init_key _ _ _ _ _ Hi Hk) as [Hd [HK HKr]].
  set (D := Z.of_nat (length (dictionary c))) in *.
  destruct (build_indices_In _ _ HT) as [I HI].
  destruct (build_indices_spec _ _ _ HI) as [HIr [_ HIT]].
  destruct (translate_list_range true D _ I HK HKr HIr) as [Y [HY [_ HYr]]].
  destruct (render_build _ Y (DIZ_index_inverse _ _ Hd) HYr) as [e' [He [_ Hb]]].
  rewrite (encode_run h c T true true s0 I Y e' HI HY He) in Henc.
  inversion Henc; subst e' s1. clear Henc.
  destruct (translate_roundtrip D _ I Y HK HKr HIr HY) as [HYI _].
  split; [reflexivity|].
  eexists. unfold decode. split; [exact (encode_run h c e false false _ Y I T Hb HYI HIT)|].
  split; [reflexivity|].
  intros g. unfold verify, _output, _sign, bind, get_text, lift. cbn [text].
  rewrite HIT. unfold ret. simpl.
  destruct (list_eq_dec Z.eq_dec g (h T)); split; congruence.
Qed.

(** ** Instances of the properties *)

Lemma token_valid_key_witness :
  (DIZ "num" = Some NUM /\ in_range (Z.of_nat (length NUM)) [1; 3; 7] /\
   (Z.to_nat 3 <= length [1; 3; 7])%nat) /\
  exists t, token "num" 3 [1; 3; 7] = inr t /\ length t = Z.to_nat 3 /\
    Forall (fun ch => In ch NUM) t /\
    exists k, init "num" t [] = inr (mk_cipher NUM k, mk_st [] None []).
Proof.
  assert (H1 : DIZ "num" = Some NUM) by reflexivity.
  assert (H2 : in_range (Z.of_nat (length NUM)) [1; 3; 7]) by (repeat constructor; simpl; lia).
  assert (H3 : (Z.to_nat 3 <= length [1; 3; 7])%nat) by (simpl; lia).
  split; [split; [exact H1|split; assumption]|].
  exact (token_valid_key "num" NUM 3 [] [1; 3; 7] H1 H2 H3).
Defined.

Lemma foreign_char_value_error_witness :
  ~ Forall (fun ch => In ch NUM) (str "a") /\
  encode (fun x => x) (mk_cipher NUM [1; 3; 7]) (str "a") true false (mk_st [] None []) =
    (inl ValueError, mk_st [] None []) /\
  wdecode (mk_cipher NUM [1; 3; 7]) (str "a") (mk_st [] None []) =
    (inl ValueError, mk_st [] None []) /\
  (4 > Z.of_nat (length (str "a")) + 2 ->
   wencode (fun x => x) (mk_cipher NUM [1; 3; 7]) (str "a") 4 false (mk_st [] None []) =
     (inl ValueError, mk_st [] None [])).
Proof.
  assert (H : ~ Forall (fun ch => In ch NUM) (str "a")).
  { intros H. inversion H as [|? ? Hx _]. cbn in Hx. lia. }
  split; [exact H|].
  exact (foreign_char_value_error (fun x => x) (mk_cipher NUM [1; 3; 7]) (str "a") true false 4
           (mk_st [] None []) H).
Defined.


Lemma encode_total_witness :
  ([1; 3; 7] <> [] /\ in_range 10 [1; 3; 7] /\ Forall (fun ch => In ch NUM) (str "582")) /\
  exists o, fst (encode (fun x => x) (mk_cipher NUM [1; 3; 7]) (str "582") false false
                   (mk_st [] None [])) = inr o /\
    length o = length (str "582") /\ Forall (fun ch => In ch NUM) o.
Proof.
  assert (H1 : [1; 3; 7] <> []) by discriminate.
  assert (H2 : in_range 10 [1; 3; 7]) by (repeat constructor; lia).
  assert (H3 : Forall (fun ch => In ch NUM) (str "582"))
    by (repeat (apply Forall_cons; [cbn; tauto|]); apply Forall_nil).
  split; [split; [exact H1|split; assumption]|].
  exact (encode_total (fun x => x) (mk_cipher NUM [1; 3; 7]) (str "582") false false
           (mk_st [] None []) H1 H2 H3).
Defined.

Lemma encode_decode_witness :
  (init "num" (str "137") [] = inr (mk_cipher NUM [1; 3; 7], mk_st [] None []) /\
   str "137" <> [] /\ Forall (fun ch => In ch NUM) (str "619")) /\
  match decode (fun x => x) (mk_cipher NUM [1; 3; 7]) (str "619") (mk_st [] None []) with
  | (inr e, s1) =>
      fst (encode (fun x => x) (mk_cipher NUM [1; 3; 7]) e true false s1) = inr (str "619")
  | (inl _, _) => False
  end.
Proof.
  assert (H1 : init "num" (str "137") [] = inr (mk_cipher NUM [1; 3; 7], mk_st [] None []))
    by reflexivity.
  assert (H2 : str "137" <> []) by discriminate.
  assert (H3 : Forall (fun ch => In ch NUM) (str "619"))
    by (repeat (apply Forall_cons; [cbn; tauto|]); apply Forall_nil).
  split; [split; [exact H1|split; assumption]|].
  exact (encode_decode "num" (str "137") [] (mk_cipher NUM [1; 3; 7]) (mk_st [] None [])
           (fun x => x) (str "619") (mk_st [] None []) H1 H2 H3).
Defined.

Lemma weak_key_identity_witness :
  ([0; 0] <> [] /\ Forall (fun k => k = 0) [0; 0] /\
   Forall (fun ch => In ch NUM) (str "582")) /\
  fst (encode (fun x => x) (mk_cipher NUM [0; 0]) (str "582") true false (mk_st [] None [])) =
    inr (str "582").
Proof.
  assert (H1 : [0; 0] <> []) by discriminate.
  assert (H2 : Forall (fun k => k = 0) [0; 0]) by (repeat constructor).
  assert (H3 : Forall (fun ch => In ch NUM) (str "582"))
    by (repeat (apply Forall_cons; [cbn; tauto|]); apply Forall_nil).
  split; [split; [exact H1|split; assumption]|].
  exact (weak_key_identity (fun x => x) (mk_cipher NUM [0; 0]) (str "582") true false
           (mk_st [] None []) H1 H2 H3).
Defined.

Lemma key_repetition_witness :
  let s := mk_st [] None [1 # 2; 3 # 10; 7 # 10; 1 # 10; 9 # 10; 5 # 10; 2 # 10; 4 # 10;
                          6 # 10; 8 # 10; 1 # 3; 2 # 3; 1 # 7] in
  (0 < 2)%nat /\
  encode (fun x => x) (mk_cipher NUM (concat (repeat [1; 3; 7] 2))) (str "58") true false s =
    encode (fun x => x) (mk_cipher NUM [1; 3; 7]) (str "58") true false s /\
  wencode (fun x => x) (mk_cipher NUM (concat (repeat [1; 3; 7] 2))) (str "58") 9 false s =
    wencode (fun x => x) (mk_cipher NUM [1; 3; 7]) (str "58") 9 false s /\
  wdecode (mk_cipher NUM (concat (repeat [1; 3; 7] 2))) (str "58") s =
    wdecode (mk_cipher NUM [1; 3; 7]) (str "58") s.
Proof.
  intros s.
  assert (H : (0 < 2)%nat) by lia.
  split; [exact H|].
  exact (key_repetition (fun x => x) NUM [1; 3; 7] 2 (str "58") true false 9 s H).
Defined.

Lemma encode_prefix_witness :
  fst (encode (fun x => x) (mk_cipher NUM [1; 3; 7]) (str "58" ++ str "2") true false
         (mk_st [] None [])) = inr (str "619") /\
  fst (encode (fun x => x) (mk_cipher NUM [1; 3; 7]) (str "58") true true (mk_st [5] None []))
    = inr (firstn (length (str "58")) (str "619")).
Proof.
  assert (H : fst (encode (fun x => x) (mk_cipher NUM [1; 3; 7]) (str "58" ++ str "2") true false
                     (mk_st [] None [])) = inr (str "619")) by reflexivity.
  split; [exact H|].
  exact (encode_prefix (fun x => x) (mk_cipher NUM [1; 3; 7]) (str "58") (str "2") true false true
           (mk_st [] None []) (mk_st [5] None []) (str "619") H).
Defined.

Lemma wdecode_shrinks_witness :
  fst (wdecode (mk_cipher NUM [1; 3; 7]) (str "517685953") (mk_st [] None [])) = inr (str "58") /\
  (str "58" = [] \/ (length (str "58") + 2 <= length (str "517685953"))%nat).
Proof.
  assert (H : fst (wdecode (mk_cipher NUM [1; 3; 7]) (str "517685953") (mk_st [] None [])) =
                inr (str "58")) by reflexivity.
  split; [exact H|].
  exact (wdecode_shrinks (mk_cipher NUM [1; 3; 7]) (str "517685953") (mk_st [] None [])
           (str "58") H).
Defined.

Lemma verify_after_decode_witness :
  (init "num" (str "137") [] = inr (mk_cipher NUM [1; 3; 7], mk_st [] None []) /\
   str "137" <> [] /\ Forall (fun ch => In ch NUM) (str "582") /\
   encode (fun x => x) (mk_cipher NUM [1; 3; 7]) (str "582") true true (mk_st [] None []) =
     (inr (str "619"), mk_st [6; 1; 9] (Some (str "582")) [])) /\
  signature (mk_st [6; 1; 9] (Some (str "582")) []) = Some (str "582") /\
  exists s2, decode (fun x => x) (mk_cipher NUM [1; 3; 7]) (str "619")
               (mk_st [6; 1; 9] (Some (str "582")) []) = (inr (str "582"), s2) /\
    signature s2 = Some (str "582") /\
    forall g, fst (verify (fun x => x) (mk_cipher NUM [1; 3; 7]) g s2) = inr true <->
              g = str "582".
Proof.
  assert (H1 : init "num" (str "137") [] = inr (mk_cipher NUM [1; 3; 7], mk_st [] None []))
    by reflexivity.
  assert (H2 : str "137" <> []) by discriminate.
  assert (H3 : Forall (fun ch => In ch NUM) (str "582"))
    by (repeat (apply Forall_cons; [cbn; tauto|]); apply Forall_nil).
  assert (H4 : encode (fun x => x) (mk_cipher NUM [1; 3; 7]) (str "582") true true
                 (mk_st [] None []) = (inr (str "619"), mk_st [6; 1; 9] (Some (str "582")) []))
    by reflexivity.
  split; [split; [exact H1|split; [exact H2|split; assumption]]|].
  exact (verify_after_decode "num" (str "137") [] (mk_cipher NUM [1; 3; 7]) (mk_st [] None [])
           (fun x => x) (str "582") (mk_st [] None []) _ (str "619") H1 H2 H3 H4).
Defined.

Lemma verify_after_wdecode_witness :
  let c := mk_cipher NUM [1; 3; 7] in
  let rs := [1 # 2; 3 # 10; 7 # 10; 1 # 10; 9 # 10; 5 # 10; 2 # 10; 4 # 10; 6 # 10;
             8 # 10; 1 # 3; 2 # 3; 1 # 7] in
  let s1 := mk_st [5; 1; 7; 6; 8; 5; 9; 5; 3] (Some (str "58"))
              [2 # 10; 4 # 10; 6 # 10; 8 # 10; 1 # 3; 2 # 3; 1 # 7] in
  (init "num" (str "137") [] = inr (c, mk_st [] None []) /\ str "137" <> [] /\
   Forall (fun ch => In ch (dictionary c)) (str "58") /\
   9 > Z.of_nat (length (str "58")) + 2 /\ Forall unit_q rs /\
   wencode (fun x => x) c (str "58") 9 true (mk_st [] None rs) =
     (inr (str "517685953"), s1)) /\
  signature s1 = Some (str "58") /\
  exists s2, wdecode c (str "517685953") s1 = (inr (str "58"), s2) /\
    signature s2 = Some (str "58") /\
    forall g, fst (verify (fun x => x) c g s2) = inr true <-> g = str "58".
Proof.
  intros c rs s1.
  assert (H1 : init "num" (str "137") [] = inr (c, mk_st [] None [])) by reflexivity.
  assert (H2 : str "137" <> []) by discriminate.
  assert (H3 : Forall (fun ch => In ch (dictionary c)) (str "58"))
    by (repeat (apply Forall_cons; [cbn; tauto|]); apply Forall_nil).
  assert (H4 : 9 > Z.of_nat (length (str "58")) + 2) by (simpl; lia).
  assert (H5 : Forall unit_q rs)
    by (repeat constructor; unfold Qle, Qlt; simpl; lia).
  assert (H6 : wencode (fun x => x) c (str "58") 9 true (mk_st [] None rs) =
                 (inr (str "517685953"), s1)) by reflexivity.
  split; [repeat split; assumption|].
  exact (verify_after_wdecode "num" (str "137") [] c (mk_st [] None []) (fun x => x)
           (str "58") 9 (mk_st [] None rs) s1 (str "517685953") H1 H2 H3 H4 H5 H6).
Defined.

Lemma wencode_over_alphabet_witness :
  let c := mk_cipher NUM [1; 3; 7] in
  let rs := [1 # 2; 3 # 10; 7 # 10; 1 # 10; 9 # 10; 5 # 10; 2 # 10; 4 # 10; 6 # 10;
             8 # 10; 1 # 3; 2 # 3; 1 # 7] in
  let s1 := mk_st [5; 1; 7; 6; 8; 5; 9; 5; 3] None
              [2 # 10; 4 # 10; 6 # 10; 8 # 10; 1 # 3; 2 # 3; 1 # 7] in
  (init "num" (str "137") [] = inr (c, mk_st [] None []) /\ str "137" <> [] /\
   Forall (fun ch => In ch (dictionary c)) (str "58") /\
   9 > Z.of_nat (length (str "58")) + 2 /\ Forall unit_q rs /\
   wencode (fun x => x) c (str "58") 9 false (mk_st [] None rs) =
     (inr (str "517685953"), s1)) /\
  Forall (fun ch => In ch (dictionary c)) (str "517685953").
Proof.
  intros c rs s1.
  assert (H1 : init "num" (str "137") [] = inr (c, mk_st [] None [])) by reflexivity.
  assert (H2 : str "137" <> []) by discriminate.
  assert (H3 : Forall (fun ch => In ch (dictionary c)) (str "58"))
    by (repeat (apply Forall_cons; [cbn; tauto|]); apply Forall_nil).
  assert (H4 : 9 > Z.of_nat (length (str "58")) + 2) by (simpl; lia).
  assert (H5 : Forall unit_q rs)
    by (repeat constructor; unfold Qle, Qlt; simpl; lia).
  assert (H6 : wencode (fun x => x) c (str "58") 9 false (mk_st [] None rs) =
                 (inr (str "517685953"), s1)) by reflexivity.
  split; [repeat split; assumption|].
  exact (wencode_over_alphabet "num" (str "137") [] c (mk_st [] None []) (fun x => x)
           (str "58") 9 false (mk_st [] None rs) s1 (str "517685953") H1 H2 H3 H4 H5 H6).
Defined.
